(** * A shallow embedding of YTLoader's Streamlit downloader
    (Versions/Streamlit/app.py): the playlist URL validator, the batch
    download loop of [YouTubePlaylistDownloader.download_videos] and the
    session-state bookkeeping of [main]. *)

From Stdlib Require Import List String Ascii Arith Lia Bool Sorted Permutation.
From Stdlib Require Import Decimal DecimalString DecimalNat.
Import ListNotations.
Open Scope string_scope.
Open Scope list_scope.

(* ------------------------------------------------------------------ *)
(** ** Regular expressions, as used by [re.match] *)

Module Regex.

Inductive regex : Type :=
| Empty : regex                      (* matches nothing *)
| Eps : regex                        (* matches the empty string *)
| Cls : (ascii -> bool) -> regex     (* one character of a class *)
| Cat : regex -> regex -> regex
| Alt : regex -> regex -> regex
| Star : regex -> regex.

Definition Opt (r : regex) : regex := Alt Eps r.
Definition Plus (r : regex) : regex := Cat r (Star r).
Definition Lit (c : ascii) : regex := Cls (fun d => Ascii.eqb c d).

Fixpoint Str (s : string) : regex :=
  match s with
  | EmptyString => Eps
  | String c s' => Cat (Lit c) (Str s')
  end.

Fixpoint nullable (r : regex) : bool :=
  match r with
  | Empty => false
  | Eps => true
  | Cls _ => false
  | Cat r1 r2 => nullable r1 && nullable r2
  | Alt r1 r2 => nullable r1 || nullable r2
  | Star _ => true
  end.

Fixpoint deriv (c : ascii) (r : regex) : regex :=
  match r with
  | Empty => Empty
  | Eps => Empty
  | Cls p => if p c then Eps else Empty
  | Cat r1 r2 =>
      if nullable r1 then Alt (Cat (deriv c r1) r2) (deriv c r2)
      else Cat (deriv c r1) r2
  | Alt r1 r2 => Alt (deriv c r1) (deriv c r2)
  | Star r1 => Cat (deriv c r1) (Star r1)
  end.

(** [re.match(p, s) is not None]: some prefix of [s] is in the language
    of [p] (the pattern is anchored at the start only). *)
Fixpoint match_prefix (r : regex) (s : string) : bool :=
  nullable r ||
  match s with
  | EmptyString => false
  | String c s' => match_prefix (deriv c r) s'
  end.

(** Full match, used to decide membership of concrete strings. *)
Fixpoint matches (r : regex) (s : string) : bool :=
  match s with
  | EmptyString => nullable r
  | String c s' => matches (deriv c r) s'
  end.

Fixpoint str_all (p : ascii -> bool) (s : string) : bool :=
  match s with
  | EmptyString => true
  | String c s' => p c && str_all p s'
  end.

(** Language membership. *)
Inductive in_lang : regex -> string -> Prop :=
| L_eps : in_lang Eps ""
| L_cls : forall (p : ascii -> bool) c, p c = true -> in_lang (Cls p) (String c "")
| L_cat : forall r1 r2 s1 s2,
    in_lang r1 s1 -> in_lang r2 s2 -> in_lang (Cat r1 r2) (s1 ++ s2)
| L_altl : forall r1 r2 s, in_lang r1 s -> in_lang (Alt r1 r2) s
| L_altr : forall r1 r2 s, in_lang r2 s -> in_lang (Alt r1 r2) s
| L_star0 : forall r, in_lang (Star r) ""
| L_starS : forall r s1 s2,
    in_lang r s1 -> in_lang (Star r) s2 -> in_lang (Star r) (s1 ++ s2).

End Regex.

(* ------------------------------------------------------------------ *)
(** ** [is_valid_playlist_url] *)

Module Url.
Import Regex.

Definition in_range (lo hi : ascii) (c : ascii) : bool :=
  Nat.leb (nat_of_ascii lo) (nat_of_ascii c) && Nat.leb (nat_of_ascii c) (nat_of_ascii hi).

(** The character class [[a-zA-Z0-9_-]]. *)
Definition id_char (c : ascii) : bool :=
  in_range "a" "z" c || in_range "A" "Z" c || in_range "0" "9" c
  || Ascii.eqb c "_" || Ascii.eqb c "-".

(** The four groups of
    [r'^(https?://)?(www\.)?(youtube\.com|youtu\.?be)/playlist\?list=([a-zA-Z0-9_-]+)'],
    the literal [/playlist?list=] included in the last one. *)
Definition scheme_re : regex := Opt (Cat (Str "http") (Cat (Opt (Lit "s")) (Str "://"))).
Definition www_re : regex := Opt (Str "www.").
Definition host_re : regex :=
  Alt (Str "youtube.com") (Cat (Str "youtu") (Cat (Opt (Lit ".")) (Str "be"))).
Definition list_re : regex := Cat (Str "/playlist?list=") (Plus (Cls id_char)).

Definition playlist_pattern : regex :=
  Cat scheme_re (Cat www_re (Cat host_re list_re)).

Definition is_valid_playlist_url (url : string) : bool :=
  match_prefix playlist_pattern url.

(** The URL shape the spec documents: optional scheme, optional [www.],
    host [youtube.com] or [youtu.be], path [/playlist], then [list=] and
    one or more characters of [[a-zA-Z0-9_-]] (anything may follow). *)
Definition documented_shape (url : string) : Prop :=
  exists sch www host id rest,
    url = (sch ++ www ++ host ++ "/playlist?list=" ++ id ++ rest)%string /\
    In sch [""; "http://"; "https://"] /\ In www [""; "www."] /\
    In host ["youtube.com"; "youtu.be"] /\
    id <> ""%string /\ str_all id_char id = true.

End Url.

(* ------------------------------------------------------------------ *)
(** ** [download_videos] *)

Module Download.

(** [quality_map] of the video branch (lines 166-172), looked up with
    [dict.get(quality, default)]. *)
Definition quality_map : list (string * string) :=
  [("best", "best[height<=1080]/best[height<=720]/best");
   ("1080p", "best[height<=1080]");
   ("720p", "best[height<=720]");
   ("480p", "best[height<=480]");
   ("360p", "best[height<=360]")].

Fixpoint dict_get (k : string) (m : list (string * string)) (default : string) : string :=
  match m with
  | [] => default
  | (k', v) :: m' => if String.eqb k k' then v else dict_get k m' default
  end.

(** The final value of [ydl_opts['format']] (lines 146-173): the initial
    value of line 146 is overwritten on every branch. *)
Definition format_of (ffmpeg_available audio_only : bool) (quality : string) : string :=
  if audio_only then
    if ffmpeg_available then "bestaudio/best" else "bestaudio[ext=m4a]/bestaudio/best"
  else dict_get quality quality_map "best[height<=720]/best".

(** yt-dlp reads a format string as [/]-separated alternatives tried in
    order; [falls_back_to_best] says one of them is plain [best]. *)
Fixpoint split_on (sep : ascii) (s : string) : list string :=
  match s with
  | EmptyString => [""%string]
  | String c s' =>
      let rest := split_on sep s' in
      if Ascii.eqb c sep then ""%string :: rest
      else match rest with
           | h :: t => String c h :: t
           | [] => [String c ""]
           end
  end.

Definition falls_back_to_best (fmt : string) : bool :=
  existsb (String.eqb "best") (split_on "/" fmt).

(** A Python [set] of ints, given by the sequence of its insertions.
    The selection only ever holds indices from [range(len(video_data))],
    hence [nat]. Its elements are [nodup]; [len] and [sorted] follow. *)
Definition pyset := list nat.
Definition set_elems (s : pyset) : list nat := nodup Nat.eq_dec s.
Definition set_len (s : pyset) : nat := List.length (set_elems s).

Fixpoint insert (x : nat) (l : list nat) : list nat :=
  match l with
  | [] => [x]
  | y :: t => if Nat.leb x y then x :: y :: t else y :: insert x t
  end.

Fixpoint sort (l : list nat) : list nat :=
  match l with
  | [] => []
  | x :: t => insert x (sort t)
  end.

(** [sorted(selected_indices)] *)
Definition sorted_set (s : pyset) : list nat := sort (set_elems s).

(** Result of [ydl.extract_info(url, download=True)]: it raises, or it
    returns an info dict (with [ignoreerrors] it may be [None], which
    [prepare_filename] then fails on). *)
Inductive call_result (Info : Type) : Type :=
| Raised (msg : string)
| Returned (info : Info).
Arguments Raised {Info} msg.
Arguments Returned {Info} info.

(** The external collaborators, over a file-system state [FS]:
    [extract_info fs format url] downloads and returns the new state;
    [prepare_filename] is [None] when it raises; [path_exists] is
    [os.path.exists]. *)
Class Extractor (FS Info : Type) := {
  extract_info : FS -> string -> string -> FS * call_result Info;
  prepare_filename : Info -> option string;
  path_exists : FS -> string -> bool
}.

(** Per-item records written to the console (lines 247, 250, 256). *)
Inductive outcome : Type :=
| Success (idx : nat) (filename : string)
| FileNotCreated (idx : nat)
| Error (idx : nat) (msg : string).

Definition outcome_index (o : outcome) : nat :=
  match o with Success i _ | FileNotCreated i | Error i _ => i end.

Definition is_success (o : outcome) : bool :=
  match o with Success _ _ => true | _ => false end.

(** Terminal classification (lines 271-278). *)
Inductive classification : Type :=
| AllCompleted
| PartialSuccess (failed : nat)
| AllFailed.

Definition classify (success_count total_count : nat) : classification :=
  if Nat.eqb success_count total_count then AllCompleted
  else if Nat.ltb 0 success_count then PartialSuccess (total_count - success_count)
  else AllFailed.

Section Loop.
Context {FS Info : Type} {EX : Extractor FS Info}.

Record loop_state := mk_loop_state {
  ls_fs : FS;
  success_count : nat;
  outcomes : list outcome;
  attempts : list string     (* URLs handed to [extract_info], in order *)
}.

(** One iteration of the loop of lines 210-264 (the UI updates, the
    title lookup and the [time.sleep(1)] are not modelled; [video_data]
    and [video_urls] are stored together and have the same length). *)
Definition process_item (fmt : string) (video_urls : list string)
    (st : loop_state) (idx : nat) : loop_state :=
  if Nat.ltb idx (List.length video_urls) then
    let video_url := nth idx video_urls ""%string in
    let '(fs', r) := extract_info (ls_fs st) fmt video_url in
    let att := attempts st ++ [video_url] in
    match r with
    | Raised msg =>
        mk_loop_state fs' (success_count st) (outcomes st ++ [Error idx msg]) att
    | Returned info =>
        match prepare_filename info with
        | None =>
            mk_loop_state fs' (success_count st)
              (outcomes st ++ [Error idx "prepare_filename failed"]) att
        | Some filename =>
            if path_exists fs' filename then
              mk_loop_state fs' (S (success_count st))
                (outcomes st ++ [Success idx filename]) att
            else
              mk_loop_state fs' (success_count st)
                (outcomes st ++ [FileNotCreated idx]) att
        end
    end
  else st.

Definition run_loop (fmt : string) (video_urls : list string) (fs : FS)
    (order : list nat) : loop_state :=
  fold_left (process_item fmt video_urls) order (mk_loop_state fs 0 [] []).

Inductive dv_result : Type :=
| NothingToDo (msg : string)     (* [st.error(msg); return False] *)
| Finished (total_count : nat) (final : loop_state) (cls : classification).

(** [download_videos] (lines 124-283). *)
Definition download_videos (fs : FS) (ffmpeg_available : bool)
    (video_urls : list string) (selected_indices : pyset)
    (audio_only : bool) (quality : string) : dv_result :=
  match video_urls with
  | [] => NothingToDo "No videos selected for download"
  | _ =>
      let fmt := format_of ffmpeg_available audio_only quality in
      let total_count := set_len selected_indices in
      if Nat.eqb total_count 0 then NothingToDo "No videos selected"
      else
        let final := run_loop fmt video_urls fs (sorted_set selected_indices) in
        Finished total_count final (classify (success_count final) total_count)
  end.

(** The value [download_videos] returns. *)
Definition dv_return (r : dv_result) : bool :=
  match r with
  | NothingToDo _ => false
  | Finished _ final _ => Nat.ltb 0 (success_count final)
  end.

End Loop.

End Download.

(* ------------------------------------------------------------------ *)
(** ** Session state of [main] *)

Module Session.
Import Download.

(** A playlist entry as [extract_flat] returns it (lines 449-456). *)
Record raw_video := mk_raw_video {
  rv_id : string;
  rv_title : string;
  rv_duration : option nat
}.

(** An element of [st.session_state.video_data] (lines 472-479); the
    formatted duration and the thumbnail are left out. *)
Record entry := mk_entry {
  e_index : nat;
  e_id : string;
  e_title : string;
  e_url : string
}.

Record session := mk_session {
  selected_videos : pyset;
  select_all_clicked : bool;
  clear_all_clicked : bool;
  video_data : list entry;
  video_urls : list string
}.

(** Initial session state (lines 403-413). *)
Definition init_session : session := mk_session [] false false [] [].

(** Lines 442-479: [None] entries are skipped; [index] is the position in
    the raw list. *)
Fixpoint build_entries (i : nat) (videos : list (option raw_video))
    : list entry * list string :=
  match videos with
  | [] => ([], [])
  | None :: vs => build_entries (S i) vs
  | Some v :: vs =>
      let url := ("https://www.youtube.com/watch?v=" ++ rv_id v)%string in
      let '(d, u) := build_entries (S i) vs in
      (mk_entry i (rv_id v) (rv_title v) url :: d, url :: u)
  end.

(** Lines 484-486: store the new entry list. *)
Definition store_playlist (videos : list (option raw_video)) (s : session) : session :=
  let '(d, u) := build_entries 0 videos in
  mk_session (selected_videos s) (select_all_clicked s) (clear_all_clicked s) d u.

(** Lines 496-506. *)
Definition select_all (s : session) : session :=
  mk_session (seq 0 (List.length (video_data s))) true false (video_data s) (video_urls s).

Definition clear_all (s : session) : session :=
  mk_session [] false true (video_data s) (video_urls s).

(** Lines 561-569: [checks] are the checkbox states by position. *)
Definition submit_form (checks : list bool) (s : session) : session :=
  mk_session
    (filter (fun i => nth i checks false) (seq 0 (List.length (video_data s))))
    (select_all_clicked s) (clear_all_clicked s) (video_data s) (video_urls s).

End Session.

(* ------------------------------------------------------------------ *)
(** ** A concrete extractor, to run the model on *)

Module Demo.
Import Download Session.

(** Files on disk are a list of paths; the URL ["bad"] raises, the URL
    ["empty"] returns without writing a file, any other URL writes a file
    named after it. *)
#[export] Instance demo_extractor : Extractor (list string) string := {
  extract_info fs fmt url :=
    if String.eqb url "bad" then (fs, Raised "HTTP Error 404")
    else if String.eqb url "empty" then (fs, Returned url)
    else (url :: fs, Returned url);
  prepare_filename info := Some info;
  path_exists fs p := existsb (String.eqb p) fs
}.

(** A session holding a two-entry playlist with both entries selected. *)
Definition old_session : session :=
  mk_session [0; 1] false false
    [mk_entry 0 "old0" "Old 0" "https://www.youtube.com/watch?v=old0";
     mk_entry 1 "old1" "Old 1" "https://www.youtube.com/watch?v=old1"]
    ["https://www.youtube.com/watch?v=old0"; "https://www.youtube.com/watch?v=old1"].

End Demo.

(* ------------------------------------------------------------------ *)
(** ** Duration display of [main] (lines 456-465) *)

Module Duration.






End Duration.

(* ------------------------------------------------------------------ *)
(** ** [progress_hook] (lines 105-122) *)

Module Hook.

(** [str.isspace] on one ASCII character. *)
Definition is_space (c : ascii) : bool :=
  let n := nat_of_ascii c in
  (Nat.leb 9 n && Nat.leb n 13) || (Nat.leb 28 n && Nat.leb n 32).

Fixpoint lstrip (s : string) : string :=
  match s with
  | EmptyString => EmptyString
  | String c s' => if is_space c then lstrip s' else s
  end.

Fixpoint rstrip (s : string) : string :=
  match s with
  | EmptyString => EmptyString
  | String c s' =>
      let r := rstrip s' in
      match r with
      | EmptyString => if is_space c then EmptyString else String c EmptyString
      | _ => String c r
      end
  end.

(** [str.strip()] *)
Definition strip (s : string) : string := rstrip (lstrip s).

(** The event dict [d]; [d[k]] raises [KeyError] on a missing key. *)
Definition pydict := list (string * string).

Fixpoint dict_lookup (k : string) (d : pydict) : option string :=
  match d with
  | [] => None
  | (k', v) :: d' => if String.eqb k k' then Some v else dict_lookup k d'
  end.

Fixpoint str_contains (c : ascii) (s : string) : bool :=
  match s with
  | EmptyString => false
  | String c' s' => Ascii.eqb c c' || str_contains c s'
  end.

(** [filename.split('.')[-1] if '.' in filename else 'file'] *)
Definition file_ext (filename : string) : string :=
  if str_contains "." filename then last (Download.split_on "." filename) ""%string
  else "file".

(** The texts written to [status_container] (emoji left out). *)
Inductive status_text : Type :=
| Downloading (title percent speed eta : string)   (* "title... | percent | speed | ETA: eta" *)
| Completed (title ext : string)                   (* "title... | Download completed (.ext)" *)
| DownloadFailed (title : string).                  (* "title... | Download failed" *)

Inductive hook_result : Type :=
| KeyError (key : string)
| NoUpdate
| Update (t : status_text).

Definition progress_hook (d : pydict) (video_title : string) : hook_result :=
  let title := substring 0 50 video_title in
  match dict_lookup "status" d with
  | None => KeyError "status"
  | Some st =>
      if String.eqb st "downloading" then
        let percent := strip (Download.dict_get "_percent_str" d "") in
        let speed := strip (Download.dict_get "_speed_str" d "") in
        let eta := strip (Download.dict_get "_eta_str" d "") in
        match percent, speed with
        | EmptyString, _ | _, EmptyString => NoUpdate
        | _, _ => Update (Downloading title percent speed eta)
        end
      else if String.eqb st "finished" then
        Update (Completed title (file_ext (Download.dict_get "filename" d "")))
      else if String.eqb st "error" then Update (DownloadFailed title)
      else NoUpdate
  end.

End Hook.

(* ------------------------------------------------------------------ *)
(** ** Download directories (lines 19-60) *)

Module Paths.

(** Directories on disk, with the directories [os.makedirs] can create. *)
Record disk := mk_disk {
  dirs : list string;
  creatable : string -> bool
}.

Definition path_exists (dk : disk) (p : string) : bool := existsb (String.eqb p) (dirs dk).

(** The proper ancestors of a path: its prefixes ending before a [/]. *)
Fixpoint ancestors_from (acc : string) (s : string) : list string :=
  match s with
  | EmptyString => []
  | String c s' =>
      (if Ascii.eqb c "/" && negb (String.eqb acc "") then [acc] else [])
      ++ ancestors_from (acc ++ String c "")%string s'
  end.

Definition ancestors (p : string) : list string := ancestors_from "" p.

(** [os.path.join(a, b)] (POSIX). *)
Definition join (a b : string) : string :=
  match b with
  | String "/" _ => b
  | _ =>
      match a with
      | EmptyString => b
      | _ => if String.eqb (substring (String.length a - 1) 1 a) "/" then (a ++ b)%string
             else (a ++ "/" ++ b)%string
      end
  end.

(** [os.makedirs(p, exist_ok)]: creates [p] and its missing ancestors;
    [None] when it raises ([FileExistsError], or [p] cannot be created). *)
Definition makedirs (p : string) (exist_ok : bool) (dk : disk) : option disk :=
  if path_exists dk p then (if exist_ok then Some dk else None)
  else if creatable dk p then Some (mk_disk (p :: ancestors p ++ dirs dk) (creatable dk))
  else None.

(** The process: [sys.frozen], [dirname(sys.executable)],
    [dirname(__file__)] and [os.path.expanduser("~")]. *)
Record process := mk_process {
  frozen : bool;
  executable_dir : string;
  script_dir : string;
  home : string
}.

Definition get_app_data_path (pr : process) (dk : disk) : option (string * disk) :=
  let base_path := if frozen pr then executable_dir pr else script_dir pr in
  let downloads_path := join base_path "downloads" in
  match makedirs downloads_path true dk with
  | Some dk' => Some (downloads_path, dk')
  | None => None
  end.

Definition get_default_download_path (pr : process) (dk : disk) : option (string * disk) :=
  let user_downloads := join (home pr) "Downloads" in
  if path_exists dk user_downloads then
    let app_downloads := join user_downloads "YouTubePlaylistDownloads" in
    match makedirs app_downloads true dk with
    | Some dk' => Some (app_downloads, dk')
    | None => None
    end
  else get_app_data_path pr dk.

Definition create_download_directory (download_path : string) (dk : disk) : option disk :=
  if negb (path_exists dk download_path) then makedirs download_path false dk else Some dk.

(** [YouTubePlaylistDownloader.__init__]: the download path and the disk
    afterwards, [None] when it raises; [ffmpeg] is the result of
    [check_ffmpeg], which never raises. *)
Record downloader := mk_downloader {
  download_path : string;
  ffmpeg_available : bool
}.

Definition init (pr : process) (ffmpeg : bool) (arg : option string) (dk : disk)
    : option (downloader * disk) :=
  let chosen :=
    match arg with
    | None => get_default_download_path pr dk
    | Some p => Some (p, dk)
    end in
  match chosen with
  | None => None
  | Some (p, dk1) =>
      match create_download_directory p dk1 with
      | Some dk2 => Some (mk_downloader p ffmpeg, dk2)
      | None => None
      end
  end.

End Paths.

(* ------------------------------------------------------------------ *)
(** ** Loading a playlist in [main] (lines 416-486, 586-591) *)

Module Page.
Import Session.

Inductive page : Type :=
| Welcome | InvalidUrl | FetchFailed | NoVideos | Listing.

(** [fetch url] is [get_playlist_info(url)] reduced to its [entries]
    ([None] when it returned [None] or an empty dict). *)
Definition load_playlist (fetch : string -> option (list (option raw_video)))
    (playlist_url : string) (s : session) : session * page :=
  match playlist_url with
  | EmptyString => (s, Welcome)
  | _ =>
      if negb (Url.is_valid_playlist_url playlist_url) then (s, InvalidUrl)
      else
        match fetch playlist_url with
        | None => (s, FetchFailed)
        | Some [] => (s, NoVideos)
        | Some videos => (store_playlist videos s, Listing)
        end
  end.

End Page.

(* ================================================================== *)
(** * Properties *)

Example url_ex1 : Url.is_valid_playlist_url "https://www.youtube.com/playlist?list=PL123" = true.
Proof. reflexivity. Qed.
Example url_ex2 : Url.is_valid_playlist_url "https://www.youtube.com/watch?v=abc123" = false.
Proof. reflexivity. Qed.
Example url_ex3 : Url.is_valid_playlist_url "youtube/playlist?list=x" = true.
Proof. reflexivity. Qed.

(* ------------------------------------------------------------------ *)
(** ** Correctness of the derivative matcher *)

Module RegexFacts.
Import Regex.

Lemma sapp_nil_r (s : string) : (s ++ "")%string = s.
Proof. induction s; simpl; congruence. Qed.

Lemma sapp_assoc (a b c : string) : (a ++ b ++ c)%string = ((a ++ b) ++ c)%string.
Proof. induction a; simpl; congruence. Qed.

Lemma sapp_eq_nil (a b : string) : (a ++ b)%string = "" -> a = "" /\ b = "".
Proof. destruct a; simpl; [auto | discriminate]. Qed.

Lemma nullable_sound r : nullable r = true -> in_lang r "".
Proof.
  induction r; simpl; intro H; try discriminate.
  - constructor.
  - apply andb_true_iff in H as [H1 H2].
    change ""%string with (("" ++ "")%string). constructor; auto.
  - apply orb_true_iff in H as [H1 | H2]; [apply L_altl | apply L_altr]; auto.
  - constructor.
Qed.

Lemma nullable_complete r w : in_lang r w -> w = "" -> nullable r = true.
Proof.
  induction 1; simpl; intro E; try discriminate; auto.
  - apply sapp_eq_nil in E as [-> ->]. rewrite IHin_lang1, IHin_lang2; auto.
  - rewrite IHin_lang; auto.
  - rewrite IHin_lang, orb_true_r; auto.
Qed.

Lemma nullable_iff r : nullable r = true <-> in_lang r "".
Proof. split; [apply nullable_sound | intro H; exact (nullable_complete r "" H eq_refl)]. Qed.

Lemma deriv_complete r w :
  in_lang r w -> forall c s, w = String c s -> in_lang (deriv c r) s.
Proof.
  induction 1; intros c0 s0 E; simpl.
  - discriminate.
  - injection E as <- <-. rewrite H. constructor.
  - destruct s1 as [| c1 s1']; simpl in E.
    + subst s2. assert (Hn : nullable r1 = true) by (apply nullable_iff; auto).
      rewrite Hn. apply L_altr. auto.
    + injection E as <- <-.
      assert (Hc : in_lang (Cat (deriv c1 r1) r2) (s1' ++ s2)).
      { constructor; auto. }
      destruct (nullable r1); [apply L_altl|]; exact Hc.
  - apply L_altl; eauto.
  - apply L_altr; eauto.
  - discriminate.
  - destruct s1 as [| c1 s1']; simpl in E.
    + subst s2. apply IHin_lang2; reflexivity.
    + injection E as <- <-. constructor; auto.
Qed.

Lemma deriv_sound r : forall c s, in_lang (deriv c r) s -> in_lang r (String c s).
Proof.
  induction r as [| | p | r1 IH1 r2 IH2 | r1 IH1 r2 IH2 | r1 IH1]; intros c s H; simpl in H.
  - inversion H.
  - inversion H.
  - destruct (p c) eqn:Hp; inversion H; subst. constructor; auto.
  - destruct (nullable r1) eqn:Hn.
    + inversion H; subst.
      * inversion H3; subst. change (String c (s1 ++ s2)) with ((String c s1 ++ s2)%string).
        constructor; auto.
      * change (String c s) with (("" ++ String c s)%string).
        constructor; [apply nullable_iff |]; auto.
    + inversion H; subst. change (String c (s1 ++ s2)) with ((String c s1 ++ s2)%string).
      constructor; auto.
  - inversion H; subst; [apply L_altl | apply L_altr]; auto.
  - inversion H; subst. change (String c (s1 ++ s2)) with ((String c s1 ++ s2)%string).
    constructor; auto.
Qed.

Lemma match_prefix_iff r s :
  match_prefix r s = true <-> exists p q, s = (p ++ q)%string /\ in_lang r p.
Proof.
  revert r; induction s as [| c s IH]; intro r; simpl; split.
  - rewrite orb_false_r. intro H. exists "", "". split; [reflexivity | apply nullable_iff; auto].
  - intros (p & q & E & Hp). symmetry in E. apply sapp_eq_nil in E as [-> ->].
    rewrite (proj2 (nullable_iff r) Hp). reflexivity.
  - intro H. apply orb_true_iff in H as [H | H].
    + exists "", (String c s). split; [reflexivity | apply nullable_iff; auto].
    + apply IH in H as (p & q & -> & Hp). exists (String c p), q.
      split; [reflexivity | apply deriv_sound; auto].
  - intros (p & q & E & Hp). destruct p as [| c' p']; simpl in E.
    + subst q. rewrite (proj2 (nullable_iff r) Hp). reflexivity.
    + injection E as <- ->. apply orb_true_iff. right. apply IH.
      exists p', q. split; [reflexivity | eapply deriv_complete; eauto].
Qed.

End RegexFacts.

Module UrlFacts.
Import Regex RegexFacts Url.

Lemma matches_iff r s : matches r s = true <-> in_lang r s.
Proof.
  revert r; induction s as [| c s IH]; intro r; simpl.
  - apply nullable_iff.
  - rewrite IH. split; [apply deriv_sound | intro H; eapply deriv_complete; eauto].
Qed.

Lemma in_lang_Cat r1 r2 w :
  in_lang (Cat r1 r2) w -> exists a b, w = (a ++ b)%string /\ in_lang r1 a /\ in_lang r2 b.
Proof. intro H; inversion H; subst; eauto. Qed.

Lemma in_lang_Alt r1 r2 w : in_lang (Alt r1 r2) w -> in_lang r1 w \/ in_lang r2 w.
Proof. intro H; inversion H; subst; auto. Qed.

Lemma in_lang_Opt r w : in_lang (Opt r) w -> w = ""%string \/ in_lang r w.
Proof. intro H; apply in_lang_Alt in H as [H | H]; [inversion H|]; auto. Qed.

Lemma in_lang_Cls p w : in_lang (Cls p) w -> exists c, w = String c "" /\ p c = true.
Proof. intro H; inversion H; subst; eauto. Qed.

Lemma in_lang_Str s : forall w, in_lang (Str s) w -> w = s.
Proof.
  induction s as [| c s IH]; intros w H; simpl in H.
  - inversion H; reflexivity.
  - apply in_lang_Cat in H as (a & b & -> & Ha & Hb).
    apply in_lang_Cls in Ha as (d & -> & Hd). apply Ascii.eqb_eq in Hd as ->.
    rewrite (IH b Hb). reflexivity.
Qed.

Lemma in_lang_Star_cls p r w : in_lang r w -> r = Star (Cls p) -> str_all p w = true.
Proof.
  induction 1; intro E; try discriminate; auto.
  injection E as ->. apply in_lang_Cls in H as (c & -> & Hc).
  simpl. rewrite Hc. auto.
Qed.

Lemma str_all_Star p w : str_all p w = true -> in_lang (Star (Cls p)) w.
Proof.
  induction w as [| c w IH]; simpl; intro H.
  - constructor.
  - apply andb_true_iff in H as [H1 H2].
    change (String c w) with ((String c "" ++ w)%string).
    constructor; [constructor|]; auto.
Qed.

Ltac cat_inv H A B := apply in_lang_Cat in H as (? & ? & -> & A & B).

Lemma scheme_re_lang w : in_lang scheme_re w <-> In w [""; "http://"; "https://"]%string.
Proof.
  split.
  - intro H. apply in_lang_Opt in H as [-> | H]; [simpl; auto|].
    cat_inv H H1 H2. apply in_lang_Str in H1 as ->. cat_inv H2 H3 H4.
    apply in_lang_Str in H4 as ->. apply in_lang_Opt in H3 as [-> | H3]; simpl; auto.
    apply in_lang_Cls in H3 as (c & -> & Hc). apply Ascii.eqb_eq in Hc as <-. simpl; auto.
  - intros [<- | [<- | [<- | []]]]; apply matches_iff; reflexivity.
Qed.

Lemma www_re_lang w : in_lang www_re w <-> In w [""; "www."]%string.
Proof.
  split.
  - intro H. apply in_lang_Opt in H as [-> | H]; [simpl; auto|].
    apply in_lang_Str in H as ->. simpl; auto.
  - intros [<- | [<- | []]]; apply matches_iff; reflexivity.
Qed.

Lemma host_re_lang w : in_lang host_re w <-> In w ["youtube.com"; "youtu.be"; "youtube"]%string.
Proof.
  split.
  - intro H. apply in_lang_Alt in H as [H | H].
    + apply in_lang_Str in H as ->. simpl; auto.
    + cat_inv H H1 H2. apply in_lang_Str in H1 as ->. cat_inv H2 H3 H4.
      apply in_lang_Str in H4 as ->. apply in_lang_Opt in H3 as [-> | H3]; simpl; auto.
      apply in_lang_Cls in H3 as (c & -> & Hc). apply Ascii.eqb_eq in Hc as <-. simpl; auto.
  - intros [<- | [<- | [<- | []]]]; apply matches_iff; reflexivity.
Qed.

Lemma list_re_lang w :
  in_lang list_re w <->
  exists id, w = ("/playlist?list=" ++ id)%string /\ id <> ""%string /\ str_all id_char id = true.
Proof.
  split.
  - intro H. cat_inv H H1 H2. apply in_lang_Str in H1 as ->.
    unfold Plus in H2. cat_inv H2 H3 H4. apply in_lang_Cls in H3 as (c & -> & Hc).
    eexists. split; [reflexivity|].
    split; [discriminate|]. simpl. rewrite Hc. eapply in_lang_Star_cls; eauto.
  - intros (id & -> & Hne & Hall). constructor.
    + apply matches_iff; reflexivity.
    + destruct id as [| c id]; [congruence|]. simpl in Hall.
      apply andb_true_iff in Hall as [H1 H2].
      change (String c id) with ((String c "" ++ id)%string).
      constructor; [constructor; auto | apply str_all_Star; auto].
Qed.

Lemma pattern_lang w :
  in_lang playlist_pattern w <->
  exists sch www host id,
    w = (sch ++ www ++ host ++ "/playlist?list=" ++ id)%string /\
    In sch [""; "http://"; "https://"] /\ In www [""; "www."] /\
    In host ["youtube.com"; "youtu.be"; "youtube"] /\
    id <> ""%string /\ str_all id_char id = true.
Proof.
  split.
  - intro H. unfold playlist_pattern in H.
    cat_inv H H1 H2. cat_inv H2 H3 H4. cat_inv H4 H5 H6.
    apply scheme_re_lang in H1. apply www_re_lang in H3. apply host_re_lang in H5.
    apply list_re_lang in H6 as (id & -> & Hne & Hall).
    do 4 eexists. repeat split; eauto.
  - intros (sch & www & host & id & -> & Hs & Hw & Hh & Hne & Hall).
    unfold playlist_pattern.
    apply L_cat; [apply scheme_re_lang; auto|].
    apply L_cat; [apply www_re_lang; auto|].
    apply L_cat; [apply host_re_lang; auto | apply list_re_lang; eauto].
Qed.

End UrlFacts.

(* ------------------------------------------------------------------ *)
(** ** Claims about [is_valid_playlist_url] *)

Module UrlClaims.
Import Regex RegexFacts Url UrlFacts.

(** C4 (counterexample): the validator does not return false for every
    string lacking a recognised host: [youtube/playlist?list=x], whose host
    is [youtube] (neither [youtube.com] nor [youtu.be]) and which has not
    the documented shape, is accepted, because [youtu\.?be] also matches
    [youtube]. *)
Lemma C4_youtube_host_accepted :
  is_valid_playlist_url "youtube/playlist?list=x" = true /\
  ~ documented_shape "youtube/playlist?list=x".
Proof.
  split; [reflexivity|].
  intros (sch & www & host & id & rest & E & Hs & Hw & Hh & _).
  destruct Hs as [<- | [<- | [<- | []]]]; try discriminate;
  destruct Hw as [<- | [<- | []]]; try discriminate;
  destruct Hh as [<- | [<- | []]]; discriminate.
Qed.

(** C4 (amended): [is_valid_playlist_url url] is true exactly when [url]
    starts with an optional [http://] or [https://], an optional [www.],
    one of the hosts [youtube.com], [youtu.be] or [youtube], then
    [/playlist?list=] and at least one character of [[a-zA-Z0-9_-]];
    anything may follow. *)
Theorem is_valid_playlist_url_iff url :
  is_valid_playlist_url url = true <->
  exists sch www host id rest,
    url = (sch ++ www ++ host ++ "/playlist?list=" ++ id ++ rest)%string /\
    In sch [""; "http://"; "https://"] /\ In www [""; "www."] /\
    In host ["youtube.com"; "youtu.be"; "youtube"] /\
    id <> ""%string /\ str_all id_char id = true.
Proof.
  unfold is_valid_playlist_url. rewrite match_prefix_iff. split.
  - intros (p & rest & -> & Hp). apply pattern_lang in Hp as (sch & www & host & id & -> & H).
    exists sch, www, host, id, rest. rewrite <- !sapp_assoc. split; [reflexivity | exact H].
  - intros (sch & www & host & id & rest & -> & H).
    exists (sch ++ www ++ host ++ "/playlist?list=" ++ id)%string, rest.
    split; [rewrite <- !sapp_assoc; reflexivity|].
    apply pattern_lang. do 4 eexists. split; [reflexivity | exact H].
Qed.

End UrlClaims.

(* ------------------------------------------------------------------ *)
(** ** Facts about [sorted] on sets *)

Module SortFacts.
Import Download.

Lemma insert_perm x l : Permutation (x :: l) (insert x l).
Proof.
  induction l as [| y t IH]; simpl; [auto|].
  destruct (Nat.leb x y); [auto|].
  eapply perm_trans; [apply perm_swap|]. auto.
Qed.

Lemma sort_perm l : Permutation l (sort l).
Proof.
  induction l as [| x t IH]; simpl; [auto|].
  eapply perm_trans; [apply perm_skip, IH | apply insert_perm].
Qed.

Lemma insert_sorted x l : StronglySorted le l -> StronglySorted le (insert x l).
Proof.
  induction l as [| y t IH]; simpl; intro Hs.
  - repeat constructor.
  - inversion Hs as [| ? ? Ht Hall]; subst.
    destruct (Nat.leb x y) eqn:Hxy.
    + apply Nat.leb_le in Hxy. constructor; [exact Hs|].
      constructor; [exact Hxy|]. eapply Forall_impl; [|exact Hall]. intros; lia.
    + apply Nat.leb_gt in Hxy. constructor; [auto|].
      apply (Permutation_Forall (insert_perm x t)). constructor; [lia | exact Hall].
Qed.

Lemma sort_sorted l : StronglySorted le (sort l).
Proof. induction l; simpl; [constructor | apply insert_sorted; auto]. Qed.

Lemma ssorted_le_lt l : StronglySorted le l -> NoDup l -> StronglySorted lt l.
Proof.
  induction 1 as [| a l Hs IH Hall]; intro Hnd; constructor.
  - apply IH. inversion Hnd; auto.
  - inversion Hnd as [| ? ? Hna _]; subst. apply Forall_forall. intros y Hy.
    pose proof (proj1 (Forall_forall _ _) Hall y Hy). assert (a <> y) by (intros ->; auto). lia.
Qed.

Lemma sorted_set_perm s : Permutation (set_elems s) (sorted_set s).
Proof. apply sort_perm. Qed.

Lemma sorted_set_nodup s : NoDup (sorted_set s).
Proof. eapply Permutation_NoDup; [apply sorted_set_perm | apply NoDup_nodup]. Qed.

Lemma sorted_set_lt s : StronglySorted lt (sorted_set s).
Proof. apply ssorted_le_lt; [apply sort_sorted | apply sorted_set_nodup]. Qed.

Lemma sorted_set_In s x : In x (sorted_set s) <-> In x s.
Proof.
  split; intro H.
  - apply (nodup_In Nat.eq_dec). eapply Permutation_in; [symmetry; apply sorted_set_perm | exact H].
  - eapply Permutation_in; [apply sorted_set_perm | apply nodup_In; exact H].
Qed.

Lemma sorted_set_length s : List.length (sorted_set s) = set_len s.
Proof. symmetry. apply Permutation_length, sorted_set_perm. Qed.

Lemma ssorted_lt_unique l1 : forall l2,
  StronglySorted lt l1 -> StronglySorted lt l2 ->
  (forall x, In x l1 <-> In x l2) -> l1 = l2.
Proof.
  induction l1 as [| a t1 IH]; intros [| b t2] H1 H2 Hin.
  - reflexivity.
  - exfalso. apply (proj2 (Hin b)). left; auto.
  - exfalso. apply (proj1 (Hin a)). left; auto.
  - inversion H1 as [| ? ? Hs1 Ha1]; inversion H2 as [| ? ? Hs2 Hb2]; subst.
    rewrite Forall_forall in Ha1, Hb2.
    assert (a = b).
    { destruct (proj1 (Hin a) (or_introl eq_refl)) as [-> | Ha]; [reflexivity|].
      destruct (proj2 (Hin b) (or_introl eq_refl)) as [<- | Hb]; [reflexivity|].
      specialize (Ha1 b Hb). specialize (Hb2 a Ha). lia. }
    subst b. f_equal. apply IH; auto. intro x. split; intro Hx.
    + destruct (proj1 (Hin x) (or_intror Hx)) as [<- | ?]; [|auto].
      specialize (Ha1 a Hx). lia.
    + destruct (proj2 (Hin x) (or_intror Hx)) as [<- | ?]; [|auto].
      specialize (Hb2 a Hx). lia.
Qed.

(** [sorted(s)] depends only on the elements of [s], not on the order in
    which they were inserted. *)
Lemma sorted_set_ext s1 s2 : (forall x, In x s1 <-> In x s2) -> sorted_set s1 = sorted_set s2.
Proof.
  intro H. apply ssorted_lt_unique; try apply sorted_set_lt.
  intro x. rewrite !sorted_set_In. apply H.
Qed.

End SortFacts.

(* ------------------------------------------------------------------ *)
(** ** Facts about the download loop *)

Module LoopFacts.
Import Download SortFacts.

Section LoopFacts.
Context {FS Info : Type} {EX : Extractor FS Info}.
Variable fmt : string.
Variable video_urls : list string.

Definition in_range (i : nat) : bool := Nat.ltb i (List.length video_urls).
Definition url_at (i : nat) : string := nth i video_urls ""%string.

Definition counts_ok (st : @loop_state FS) : Prop :=
  success_count st = List.length (filter is_success (outcomes st)).

Lemma process_item_out st idx :
  List.length video_urls <= idx -> process_item fmt video_urls st idx = st.
Proof.
  intro Hle. unfold process_item.
  replace (Nat.ltb idx (List.length video_urls)) with false by (symmetry; apply Nat.ltb_ge; auto).
  reflexivity.
Qed.

Lemma process_item_in st idx :
  idx < List.length video_urls ->
  exists o,
    outcome_index o = idx /\
    outcomes (process_item fmt video_urls st idx) = outcomes st ++ [o] /\
    attempts (process_item fmt video_urls st idx) = attempts st ++ [url_at idx] /\
    success_count (process_item fmt video_urls st idx) =
      success_count st + (if is_success o then 1 else 0).
Proof.
  intro Hlt. unfold process_item, url_at.
  replace (Nat.ltb idx (List.length video_urls)) with true by (symmetry; apply Nat.ltb_lt; auto).
  destruct (extract_info (ls_fs st) fmt (nth idx video_urls ""%string)) as [fs' [msg | info]].
  - exists (Error idx msg); repeat split; simpl; lia.
  - destruct (prepare_filename info) as [fn |].
    + destruct (path_exists fs' fn).
      * exists (Success idx fn); repeat split; simpl; lia.
      * exists (FileNotCreated idx); repeat split; simpl; lia.
    + exists (Error idx "prepare_filename failed"); repeat split; simpl; lia.
Qed.

Lemma process_item_counts st idx : counts_ok st -> counts_ok (process_item fmt video_urls st idx).
Proof.
  unfold counts_ok. intro Hc.
  destruct (Nat.lt_ge_cases idx (List.length video_urls)) as [Hlt | Hge].
  - destruct (process_item_in st idx Hlt) as (o & _ & Ho & _ & Hs).
    rewrite Hs, Ho, filter_app, length_app, Hc. simpl. destruct (is_success o); reflexivity.
  - rewrite process_item_out; auto.
Qed.

Lemma fold_loop order : forall st,
  map outcome_index (outcomes (fold_left (process_item fmt video_urls) order st)) =
    map outcome_index (outcomes st) ++ filter in_range order /\
  attempts (fold_left (process_item fmt video_urls) order st) =
    attempts st ++ map url_at (filter in_range order) /\
  (counts_ok st -> counts_ok (fold_left (process_item fmt video_urls) order st)).
Proof.
  induction order as [| idx order IH]; intro st; simpl.
  - rewrite !app_nil_r. auto.
  - destruct (IH (process_item fmt video_urls st idx)) as (H1 & H2 & H3).
    destruct (in_range idx) eqn:Hr; unfold in_range in Hr.
    + apply Nat.ltb_lt in Hr.
      destruct (process_item_in st idx Hr) as (o & Hi & Ho & Ha & _).
      rewrite H1, H2, Ho, Ha, map_app. simpl. rewrite Hi, <- !app_assoc.
      repeat split; auto. intro. apply H3, process_item_counts; auto.
    + apply Nat.ltb_ge in Hr. rewrite (process_item_out st idx Hr) in *.
      auto.
Qed.

Lemma run_loop_indices fs order :
  map outcome_index (outcomes (run_loop fmt video_urls fs order)) = filter in_range order.
Proof. apply (fold_loop order). Qed.

Lemma run_loop_attempts fs order :
  attempts (run_loop fmt video_urls fs order) = map url_at (filter in_range order).
Proof. apply (fold_loop order). Qed.

Lemma run_loop_counts fs order :
  success_count (run_loop fmt video_urls fs order) =
  List.length (filter is_success (outcomes (run_loop fmt video_urls fs order))).
Proof. apply (fold_loop order). reflexivity. Qed.

Lemma run_loop_success_le fs order :
  success_count (run_loop fmt video_urls fs order) <= List.length (filter in_range order).
Proof.
  rewrite run_loop_counts, <- (run_loop_indices fs order), length_map.
  apply filter_length_le.
Qed.

Lemma run_loop_app fs pre post :
  run_loop fmt video_urls fs (pre ++ post) =
  fold_left (process_item fmt video_urls) post (run_loop fmt video_urls fs pre).
Proof. unfold run_loop. apply fold_left_app. Qed.

End LoopFacts.

Lemma download_videos_finished {FS Info} {EX : Extractor FS Info} fs ff urls sel aq q :
  urls <> [] -> set_len sel <> 0 ->
  download_videos fs ff urls sel aq q =
  Finished (set_len sel) (run_loop (format_of ff aq q) urls fs (sorted_set sel))
    (classify (success_count (run_loop (format_of ff aq q) urls fs (sorted_set sel))) (set_len sel)).
Proof.
  intros Hu Hs. unfold download_videos. destruct urls as [| u us]; [congruence|].
  apply Nat.eqb_neq in Hs. rewrite Hs. reflexivity.
Qed.

Lemma download_videos_inv {FS Info} {EX : Extractor FS Info} fs ff urls sel aq q total final cls :
  download_videos fs ff urls sel aq q = Finished total final cls ->
  urls <> [] /\ set_len sel <> 0 /\ total = set_len sel /\
  final = run_loop (format_of ff aq q) urls fs (sorted_set sel) /\
  cls = classify (success_count final) total.
Proof.
  unfold download_videos. destruct urls as [| u us]; [discriminate|].
  destruct (Nat.eqb (set_len sel) 0) eqn:Hs; [discriminate|].
  apply Nat.eqb_neq in Hs. intro E. injection E as <- <- <-. repeat split; auto. discriminate.
Qed.

End LoopFacts.

Module MoreLoopFacts.
Import Download SortFacts LoopFacts.

Lemma filter_all_true {A} (f : A -> bool) l :
  (forall x, In x l -> f x = true) -> filter f l = l.
Proof.
  induction l as [| x l IH]; simpl; intro H; [reflexivity|].
  rewrite (H x (or_introl eq_refl)), IH; auto.
Qed.

Lemma filter_length_lt {A} (f : A -> bool) l x :
  In x l -> f x = false -> List.length (filter f l) < List.length l.
Proof.
  induction l as [| y l IH]; simpl; intros Hin Hf; [contradiction|].
  pose proof (filter_length_le f l).
  destruct Hin as [-> | Hin]; [rewrite Hf; lia|].
  destruct (f y); simpl; specialize (IH Hin Hf); lia.
Qed.

Lemma ssorted_filter {A} (R : A -> A -> Prop) (f : A -> bool) l :
  StronglySorted R l -> StronglySorted R (filter f l).
Proof.
  induction 1 as [| a l Hs IH Hall]; simpl; [constructor|].
  destruct (f a); [|exact IH]. constructor; [exact IH|].
  apply Forall_forall. intros y Hy. apply filter_In in Hy as [Hy _].
  exact (proj1 (Forall_forall _ _) Hall y Hy).
Qed.

Lemma fold_outcomes_prefix {FS Info} {EX : Extractor FS Info} fmt urls order :
  forall (st : @loop_state FS), exists ext,
    outcomes (fold_left (process_item fmt urls) order st) = outcomes st ++ ext.
Proof.
  induction order as [| idx order IH]; intro st; simpl.
  - exists []. rewrite app_nil_r. reflexivity.
  - destruct (IH (process_item fmt urls st idx)) as [ext Hext]. rewrite Hext.
    destruct (Nat.lt_ge_cases idx (List.length urls)) as [Hlt | Hge].
    + destruct (process_item_in fmt urls st idx Hlt) as (o & _ & Ho & _).
      rewrite Ho. exists (o :: ext). rewrite <- app_assoc. reflexivity.
    + rewrite process_item_out by auto. eauto.
Qed.

Lemma set_len_nonempty sel : set_len sel <> 0 -> exists i, In i sel.
Proof.
  intro H. rewrite <- sorted_set_length in H.
  destruct (sorted_set sel) as [| i l] eqn:E; [simpl in H; congruence|].
  exists i. apply sorted_set_In. rewrite E. left; reflexivity.
Qed.

Lemma set_len_of_In sel i : In i sel -> set_len sel <> 0.
Proof.
  intros Hi. rewrite <- sorted_set_length. apply sorted_set_In in Hi.
  destruct (sorted_set sel); [contradiction | discriminate].
Qed.

End MoreLoopFacts.

(* ------------------------------------------------------------------ *)
(** ** Claims about [download_videos] *)

Module DownloadClaims.
Import Download SortFacts LoopFacts MoreLoopFacts Demo.

(** C1: for a non-empty selection whose indices are all below
    [len(video_urls)], [download_videos] records exactly one outcome per
    selected index: as many outcomes as the selection has elements, no
    index twice, none left out. *)
Theorem download_one_outcome_per_index {FS Info} {EX : Extractor FS Info}
    fs ff urls sel aq q :
  set_len sel <> 0 ->
  (forall i, In i sel -> i < List.length urls) ->
  exists final cls,
    download_videos fs ff urls sel aq q = Finished (set_len sel) final cls /\
    List.length (outcomes final) = set_len sel /\
    NoDup (map outcome_index (outcomes final)) /\
    (forall i, In i (map outcome_index (outcomes final)) <-> In i sel).
Proof.
  intros Hne Hall.
  assert (Hu : urls <> []).
  { destruct (set_len_nonempty sel Hne) as [i Hi]. specialize (Hall i Hi).
    intros ->. simpl in Hall. lia. }
  rewrite (download_videos_finished fs ff urls sel aq q Hu Hne).
  do 2 eexists. split; [reflexivity|].
  assert (Hidx : map outcome_index
                   (outcomes (run_loop (format_of ff aq q) urls fs (sorted_set sel)))
                 = sorted_set sel).
  { rewrite run_loop_indices. apply filter_all_true. intros x Hx.
    apply Nat.ltb_lt, Hall, sorted_set_In, Hx. }
  rewrite <- (length_map outcome_index), Hidx. repeat split.
  - apply sorted_set_length.
  - apply sorted_set_nodup.
  - intro Hi. apply sorted_set_In; auto.
  - intro Hi. apply sorted_set_In; auto.
Qed.

Lemma C1_witness :
  exists final cls,
    download_videos (EX := demo_extractor) [] false ["a"; "bad"; "c"] [2; 0; 1; 0] false "720p"
      = Finished (set_len [2; 0; 1; 0]) final cls /\
    List.length (outcomes final) = set_len [2; 0; 1; 0] /\
    NoDup (map outcome_index (outcomes final)) /\
    (forall i, In i (map outcome_index (outcomes final)) <-> In i [2; 0; 1; 0]).
Proof.
  apply (download_one_outcome_per_index (EX := demo_extractor)).
  - vm_compute. discriminate.
  - intros i Hi. simpl in Hi. simpl. lia.
Defined.

(** C2: when the download call for a selected index raises, that index is
    recorded as failed and every selected index is still attempted, in
    order: the exception does not abort the batch. *)
Theorem download_continues_after_error {FS Info} {EX : Extractor FS Info}
    fs ff urls sel aq q pre idx post fs' msg :
  sorted_set sel = pre ++ idx :: post ->
  idx < List.length urls ->
  extract_info (ls_fs (run_loop (format_of ff aq q) urls fs pre)) (format_of ff aq q)
    (nth idx urls ""%string) = (fs', Raised msg) ->
  exists final cls,
    download_videos fs ff urls sel aq q = Finished (set_len sel) final cls /\
    In (Error idx msg) (outcomes final) /\
    attempts final = map (url_at urls) (filter (in_range urls) (sorted_set sel)) /\
    map outcome_index (outcomes final) = filter (in_range urls) (sorted_set sel).
Proof.
  intros Hsort Hlt Hcall.
  assert (Hu : urls <> []) by (intros ->; simpl in Hlt; lia).
  assert (Hne : set_len sel <> 0).
  { apply (set_len_of_In sel idx). apply sorted_set_In. rewrite Hsort.
    apply in_or_app. right; left; reflexivity. }
  rewrite (download_videos_finished fs ff urls sel aq q Hu Hne).
  do 2 eexists. split; [reflexivity|].
  split; [| split; [apply run_loop_attempts | apply run_loop_indices]].
  rewrite Hsort, run_loop_app. simpl.
  set (st := run_loop (format_of ff aq q) urls fs pre) in *.
  assert (Hst : outcomes (process_item (format_of ff aq q) urls st idx)
                = outcomes st ++ [Error idx msg]).
  { unfold process_item.
    replace (Nat.ltb idx (List.length urls)) with true by (symmetry; apply Nat.ltb_lt; auto).
    rewrite Hcall. reflexivity. }
  destruct (fold_outcomes_prefix (format_of ff aq q) urls post
              (process_item (format_of ff aq q) urls st idx)) as [ext Hext].
  rewrite Hext, Hst. apply in_or_app. left. apply in_or_app. right. left. reflexivity.
Qed.

(** Three selected items whose second raises. *)
Lemma C2_witness :
  exists final cls,
    download_videos (EX := demo_extractor) [] false ["a"; "bad"; "c"] [0; 1; 2] false "720p"
      = Finished (set_len [0; 1; 2]) final cls /\
    In (Error 1 "HTTP Error 404") (outcomes final) /\
    attempts final = map (url_at ["a"; "bad"; "c"])
                       (filter (in_range ["a"; "bad"; "c"]) (sorted_set [0; 1; 2])) /\
    map outcome_index (outcomes final)
      = filter (in_range ["a"; "bad"; "c"]) (sorted_set [0; 1; 2]).
Proof.
  apply (download_continues_after_error (EX := demo_extractor)
           [] false ["a"; "bad"; "c"] [0; 1; 2] false "720p" [0] 1 [2] ["a"] "HTTP Error 404").
  - vm_compute. reflexivity.
  - simpl. lia.
  - vm_compute. reflexivity.
Defined.

Example C2_outcomes :
  download_videos (EX := demo_extractor) [] false ["a"; "bad"; "c"] [0; 1; 2] false "720p"
  = Finished 3 (mk_loop_state ["c"; "a"] 2 [Success 0 "a"; Error 1 "HTTP Error 404"; Success 2 "c"]
                  ["a"; "bad"; "c"]) (PartialSuccess 1).
Proof. reflexivity. Qed.

(** C3: [download_videos] handles the selected indices in ascending
    order, whatever the order in which they were inserted into the set:
    two selections with the same elements give the same run, and the
    outcomes and download calls follow the strictly increasing order of
    the (in-range) selected indices. *)
Theorem download_ascending_order {FS Info} {EX : Extractor FS Info}
    fs ff urls s1 s2 aq q :
  (forall x, In x s1 <-> In x s2) ->
  download_videos fs ff urls s1 aq q = download_videos fs ff urls s2 aq q /\
  (forall total final cls,
     download_videos fs ff urls s1 aq q = Finished total final cls ->
     map outcome_index (outcomes final) = filter (in_range urls) (sorted_set s1) /\
     StronglySorted lt (map outcome_index (outcomes final)) /\
     attempts final = map (url_at urls) (filter (in_range urls) (sorted_set s1))).
Proof.
  intro Hsame. split.
  - assert (Hs : sorted_set s1 = sorted_set s2) by (apply sorted_set_ext; auto).
    assert (Hl : set_len s1 = set_len s2) by (rewrite <- !sorted_set_length, Hs; reflexivity).
    unfold download_videos. rewrite Hl, Hs. reflexivity.
  - intros total final cls Hrun.
    destruct (download_videos_inv fs ff urls s1 aq q total final cls Hrun) as (_ & _ & _ & -> & _).
    rewrite run_loop_indices, run_loop_attempts. repeat split.
    apply ssorted_filter, sorted_set_lt.
Qed.

Lemma C3_witness :
  download_videos (EX := demo_extractor) [] false ["u0"; "u1"; "u2"; "u3"; "u4"; "u5"] [5; 1; 3] false "720p"
  = download_videos (EX := demo_extractor) [] false ["u0"; "u1"; "u2"; "u3"; "u4"; "u5"] [1; 3; 5] false "720p" /\
  (forall total final cls,
     download_videos (EX := demo_extractor) [] false ["u0"; "u1"; "u2"; "u3"; "u4"; "u5"] [5; 1; 3] false "720p"
       = Finished total final cls ->
     map outcome_index (outcomes final)
       = filter (in_range ["u0"; "u1"; "u2"; "u3"; "u4"; "u5"]) (sorted_set [5; 1; 3]) /\
     StronglySorted lt (map outcome_index (outcomes final)) /\
     attempts final = map (url_at ["u0"; "u1"; "u2"; "u3"; "u4"; "u5"])
                        (filter (in_range ["u0"; "u1"; "u2"; "u3"; "u4"; "u5"]) (sorted_set [5; 1; 3]))).
Proof.
  apply (download_ascending_order (EX := demo_extractor)).
  intro x. simpl. tauto.
Defined.

Example C3_outcomes_1_3_5 :
  match download_videos (EX := demo_extractor) [] false ["u0"; "u1"; "u2"; "u3"; "u4"; "u5"] [5; 1; 3] false "720p" with
  | Finished _ final _ => map outcome_index (outcomes final) = [1; 3; 5] /\ attempts final = ["u1"; "u3"; "u5"]
  | NothingToDo _ => False
  end.
Proof. vm_compute. split; reflexivity. Qed.

(** C5 (code bug): of the video quality tiers, only [best] has a format
    string with a fallback to plain [best]; [1080p], [720p], [480p] and
    [360p] name a single height-capped alternative and no fallback. *)
Theorem tier_formats_fallback ff :
  map (fun q => falls_back_to_best (format_of ff false q)) ["best"; "1080p"; "720p"; "480p"; "360p"]
  = [true; false; false; false; false] /\
  format_of ff false "720p" = "best[height<=720]"%string.
Proof. split; reflexivity. Qed.

(** C6: after the loop, the batch is classified from the success count:
    all succeeded gives full success, none succeeded (with a positive
    total) gives total failure, anything else partial success with
    [total - succeeded] failures. *)
Theorem download_classification {FS Info} {EX : Extractor FS Info}
    fs ff urls sel aq q total final cls :
  download_videos fs ff urls sel aq q = Finished total final cls ->
  0 < total /\ success_count final <= total /\
  success_count final = List.length (filter is_success (outcomes final)) /\
  (success_count final = total -> cls = AllCompleted) /\
  (success_count final = 0 -> cls = AllFailed) /\
  (0 < success_count final < total -> cls = PartialSuccess (total - success_count final)).
Proof.
  intro Hrun.
  destruct (download_videos_inv fs ff urls sel aq q total final cls Hrun)
    as (_ & Hne & -> & -> & ->).
  pose proof (run_loop_success_le (format_of ff aq q) urls fs (sorted_set sel)) as Hle.
  pose proof (filter_length_le (in_range urls) (sorted_set sel)) as Hf.
  rewrite sorted_set_length in Hf.
  set (n := success_count (run_loop (format_of ff aq q) urls fs (sorted_set sel))) in *.
  split; [lia|]. split; [lia|]. split; [apply run_loop_counts|].
  unfold classify. repeat split; intro Hn.
  - rewrite Hn, Nat.eqb_refl. reflexivity.
  - rewrite Hn. replace (Nat.eqb 0 (set_len sel)) with false by (symmetry; apply Nat.eqb_neq; lia).
    reflexivity.
  - replace (Nat.eqb n (set_len sel)) with false by (symmetry; apply Nat.eqb_neq; lia).
    replace (Nat.ltb 0 n) with true by (symmetry; apply Nat.ltb_lt; lia). reflexivity.
Qed.

Lemma C6_witness :
  let final := run_loop (EX := demo_extractor) (format_of false false "720p")
                 ["a"; "bad"; "c"] [] (sorted_set [0; 1; 2]) in
  0 < 3 /\ success_count final <= 3 /\
  success_count final = List.length (filter is_success (outcomes final)) /\
  (success_count final = 3 -> PartialSuccess 1 = AllCompleted) /\
  (success_count final = 0 -> PartialSuccess 1 = AllFailed) /\
  (0 < success_count final < 3 -> PartialSuccess 1 = PartialSuccess (3 - success_count final)).
Proof.
  apply (download_classification (EX := demo_extractor) [] false ["a"; "bad"; "c"] [0; 1; 2] false "720p").
  vm_compute. reflexivity.
Defined.

(** C7: an item counts as a success exactly when the download call
    returned, [prepare_filename] gave a path, and a file exists at that
    path afterwards; a call that returns without a file on disk is a
    failure. *)
Theorem item_success_iff_file_exists {FS Info} {EX : Extractor FS Info}
    fmt urls (st : @loop_state FS) idx fs' r :
  idx < List.length urls ->
  extract_info (ls_fs st) fmt (nth idx urls ""%string) = (fs', r) ->
  exists o,
    outcomes (process_item fmt urls st idx) = outcomes st ++ [o] /\
    outcome_index o = idx /\
    success_count (process_item fmt urls st idx)
      = success_count st + (if is_success o then 1 else 0) /\
    (is_success o = true <->
     exists info filename,
       r = Returned info /\ prepare_filename info = Some filename /\
       path_exists fs' filename = true).
Proof.
  intros Hlt Hcall. unfold process_item.
  replace (Nat.ltb idx (List.length urls)) with true by (symmetry; apply Nat.ltb_lt; auto).
  rewrite Hcall. destruct r as [msg | info].
  - exists (Error idx msg). repeat split; simpl; try lia; try discriminate.
    intros (info & fn & E & _). discriminate.
  - destruct (prepare_filename info) as [fn |] eqn:Hp.
    + destruct (path_exists fs' fn) eqn:He.
      * exists (Success idx fn). repeat split; simpl; try lia. intros _. eauto.
      * exists (FileNotCreated idx). repeat split; simpl; try lia; try discriminate.
        intros (info' & fn' & E & Hp' & He'). injection E as <-. congruence.
    + exists (Error idx "prepare_filename failed"). repeat split; simpl; try lia; try discriminate.
      intros (info' & fn' & E & Hp' & _). injection E as <-. congruence.
Qed.

Lemma C7_witness :
  exists o,
    outcomes (process_item (EX := demo_extractor) "best" ["empty"] (mk_loop_state [] 0 [] []) 0)
      = [] ++ [o] /\
    outcome_index o = 0 /\
    success_count (process_item (EX := demo_extractor) "best" ["empty"] (mk_loop_state [] 0 [] []) 0)
      = 0 + (if is_success o then 1 else 0) /\
    (is_success o = true <->
     exists info filename,
       Returned "empty"%string = Returned info /\ Some info = Some filename /\
       existsb (String.eqb filename) [] = true).
Proof.
  apply (item_success_iff_file_exists (EX := demo_extractor) "best" ["empty"]
           (mk_loop_state [] 0 [] []) 0 [] (Returned "empty"%string)).
  - simpl. lia.
  - reflexivity.
Defined.

(** C8 (counterexample): a selection with an index not below
    [len(video_urls)] is not rejected with a "nothing to do" error: with
    URLs [["a"]] and selection [{0, 5}] the in-range index 0 is downloaded
    and the run ends with a classification. *)
Lemma C8_out_of_range_selection_runs :
  download_videos (EX := demo_extractor) [] false ["a"] [0; 5] false "720p"
  = Finished 2 (mk_loop_state ["a"] 1 [Success 0 "a"] ["a"]) (PartialSuccess 1).
Proof. reflexivity. Qed.

(** C8 (amended): an empty selection, or an empty URL list, gives an
    immediate error and no download call; otherwise the loop runs, calling
    the download service on exactly the in-range selected indices (in
    ascending order) and skipping the others. *)
Theorem download_preconditions {FS Info} {EX : Extractor FS Info} fs ff urls sel aq q :
  ((sel = [] \/ urls = []) -> exists msg, download_videos fs ff urls sel aq q = NothingToDo msg) /\
  (urls <> [] -> sel <> [] ->
   exists final cls,
     download_videos fs ff urls sel aq q = Finished (set_len sel) final cls /\
     attempts final = map (url_at urls) (filter (in_range urls) (sorted_set sel))).
Proof.
  split.
  - intros [-> | ->]; unfold download_videos.
    + destruct urls; eexists; reflexivity.
    + eexists; reflexivity.
  - intros Hu Hs.
    assert (Hne : set_len sel <> 0).
    { destruct sel as [| i sel']; [congruence|]. apply (set_len_of_In _ i). left; reflexivity. }
    rewrite (download_videos_finished fs ff urls sel aq q Hu Hne).
    do 2 eexists. split; [reflexivity | apply run_loop_attempts].
Qed.

Lemma C8_witness :
  ((([] : list nat) = [] \/ ["a"; "b"]%string = []) ->
   exists msg, download_videos (EX := demo_extractor) [] false ["a"; "b"] [] false "720p" = NothingToDo msg) /\
  (["a"; "b"]%string <> [] -> ([] : list nat) <> [] ->
   exists final cls,
     download_videos (EX := demo_extractor) [] false ["a"; "b"] [] false "720p"
       = Finished (set_len []) final cls /\
     attempts final = map (url_at ["a"; "b"]) (filter (in_range ["a"; "b"]) (sorted_set []))).
Proof. apply (download_preconditions (EX := demo_extractor)). Defined.

(** C10 (counterexample): with an empty URL list, a non-empty selection
    (every index of which is out of range) is not silently skipped: the
    call stops at once with an error and no total count or classification. *)
Lemma C10_empty_url_list :
  download_videos (EX := demo_extractor) [] false [] [0] false "720p"
  = NothingToDo "No videos selected for download".
Proof. reflexivity. Qed.

(** C10 (amended): with a non-empty URL list, a selected index at or
    beyond [len(video_urls)] gets no outcome and no download call, raises
    nothing, yet the total stays the full size of the selection, so the
    success count is below it, the batch is never a full success, and the
    skipped index is counted among the failures. *)
Theorem download_skips_out_of_range {FS Info} {EX : Extractor FS Info}
    fs ff urls sel aq q i :
  urls <> [] -> In i sel -> List.length urls <= i ->
  exists final cls,
    download_videos fs ff urls sel aq q = Finished (set_len sel) final cls /\
    ~ In i (map outcome_index (outcomes final)) /\
    attempts final = map (url_at urls) (filter (in_range urls) (sorted_set sel)) /\
    success_count final < set_len sel /\
    cls = classify (success_count final) (set_len sel) /\
    cls <> AllCompleted.
Proof.
  intros Hu Hi Hge.
  assert (Hne : set_len sel <> 0) by (apply (set_len_of_In sel i Hi)).
  rewrite (download_videos_finished fs ff urls sel aq q Hu Hne).
  do 2 eexists. split; [reflexivity|].
  set (fmt := format_of ff aq q).
  assert (Hlt : success_count (run_loop fmt urls fs (sorted_set sel)) < set_len sel).
  { pose proof (run_loop_success_le fmt urls fs (sorted_set sel)).
    pose proof (filter_length_lt (in_range urls) (sorted_set sel) i
                  (proj2 (sorted_set_In sel i) Hi)
                  (proj2 (Nat.ltb_ge i (List.length urls)) Hge)).
    rewrite sorted_set_length in *. lia. }
  repeat split.
  - rewrite run_loop_indices. intro Hin. apply filter_In in Hin as [_ Hr].
    unfold in_range in Hr. apply Nat.ltb_lt in Hr. lia.
  - apply run_loop_attempts.
  - exact Hlt.
  - unfold classify. replace (Nat.eqb _ (set_len sel)) with false
      by (symmetry; apply Nat.eqb_neq; lia).
    destruct (Nat.ltb 0 _); discriminate.
Qed.

Lemma C10_witness :
  exists final cls,
    download_videos (EX := demo_extractor) [] false ["a"] [0; 5] false "720p"
      = Finished (set_len [0; 5]) final cls /\
    ~ In 5 (map outcome_index (outcomes final)) /\
    attempts final = map (url_at ["a"]) (filter (in_range ["a"]) (sorted_set [0; 5])) /\
    success_count final < set_len [0; 5] /\
    cls = classify (success_count final) (set_len [0; 5]) /\
    cls <> AllCompleted.
Proof.
  apply (download_skips_out_of_range (EX := demo_extractor)).
  - discriminate.
  - simpl. auto.
  - simpl. lia.
Defined.

End DownloadClaims.

(* ------------------------------------------------------------------ *)
(** ** Claims about the session state *)

Module SessionClaims.
Import Download Session Demo.

(** C9 (counterexample): storing a new entry list does not reset the
    selection: indices selected under the old list stay selected. *)
Lemma C9_selection_kept_on_new_playlist :
  let s' := store_playlist [Some (mk_raw_video "new0" "New 0" None);
                            Some (mk_raw_video "new1" "New 1" (Some 60))] old_session in
  video_data s' <> video_data old_session /\ selected_videos s' = [0; 1].
Proof. split; [discriminate | reflexivity]. Qed.

(** C9 (amended): storing a new entry list replaces [video_data] and
    [video_urls] and leaves the selection as it was; the selection is
    replaced only by Select All (the full index range), Clear All (the
    empty set) and the submitted selection form (the checked positions). *)
Theorem selection_transitions videos checks s :
  selected_videos (store_playlist videos s) = selected_videos s /\
  (video_data (store_playlist videos s), video_urls (store_playlist videos s))
    = build_entries 0 videos /\
  selected_videos (select_all s) = seq 0 (List.length (video_data s)) /\
  selected_videos (clear_all s) = [] /\
  selected_videos (submit_form checks s)
    = filter (fun i => nth i checks false) (seq 0 (List.length (video_data s))).
Proof.
  unfold store_playlist. destruct (build_entries 0 videos) as [d u].
  repeat split.
Qed.

End SessionClaims.

(* ------------------------------------------------------------------ *)
(** ** Facts about [split_on] ([str.split] with one separator) *)

Module SplitFacts.
Import Regex Download.

Definition no_char (c : ascii) (s : string) : bool := str_all (fun d => negb (Ascii.eqb c d)) s.

Lemma split_on_nonempty sep s : split_on sep s <> [].
Proof.
  destruct s as [| c s]; simpl; [discriminate|].
  destruct (Ascii.eqb c sep); [discriminate|]. destruct (split_on sep s); discriminate.
Qed.



Lemma split_on_pieces sep s : Forall (fun x => no_char sep x = true) (split_on sep s).
Proof.
  induction s as [| c s IH]; simpl; [repeat constructor|].
  destruct (Ascii.eqb c sep) eqn:Hc; [constructor; [reflexivity | exact IH]|].
  destruct (split_on sep s) as [| h t] eqn:E; [exfalso; exact (split_on_nonempty sep s E)|].
  inversion IH as [| ? ? Hh Ht]; subst.
  constructor; [unfold no_char in *; simpl; rewrite Ascii.eqb_sym, Hc; exact Hh | exact Ht].
Qed.

Lemma split_on_concat sep s : String.concat (String sep "") (split_on sep s) = s.
Proof.
  induction s as [| c s IH]; simpl; [reflexivity|].
  pose proof (split_on_nonempty sep s) as Hne.
  destruct (Ascii.eqb c sep) eqn:Hc.
  - apply Ascii.eqb_eq in Hc as ->.
    destruct (split_on sep s) as [| h t] eqn:E; [congruence|]. simpl. rewrite <- IH. reflexivity.
  - destruct (split_on sep s) as [| h t] eqn:E; [congruence|].
    destruct t; simpl in *; rewrite <- IH; reflexivity.
Qed.

Lemma concat_snoc sep l x :
  l <> [] -> String.concat sep (l ++ [x]) = (String.concat sep l ++ sep ++ x)%string.
Proof.
  induction l as [| a l IH]; intro Hne; [congruence|].
  destruct l as [| b l].
  - reflexivity.
  - replace (String.concat sep ((a :: b :: l) ++ [x]))
      with ((a ++ sep ++ String.concat sep ((b :: l) ++ [x]))%string) by reflexivity.
    rewrite IH by discriminate.
    replace (String.concat sep (a :: b :: l))
      with ((a ++ sep ++ String.concat sep (b :: l))%string) by reflexivity.
    rewrite !RegexFacts.sapp_assoc. reflexivity.
Qed.

End SplitFacts.

Module DurationFacts.
Import Duration SplitFacts.









End DurationFacts.

Module HookFacts.
Import Regex Download Hook SplitFacts.




Lemma str_contains_no_char c s : str_contains c s = negb (SplitFacts.no_char c s).
Proof.
  unfold SplitFacts.no_char. induction s as [| d s IH]; cbn [str_contains str_all]; [reflexivity|].
  rewrite IH. destruct (Ascii.eqb c d); reflexivity.
Qed.

Lemma split_on_two_pieces sep s :
  no_char sep s = false -> exists a b l, split_on sep s = a :: b :: l.
Proof.
  induction s as [| c s IH]; unfold no_char; cbn [str_all split_on]; [discriminate|].
  intro H. pose proof (split_on_nonempty sep s) as Hne.
  destruct (Ascii.eqb c sep) eqn:Hc.
  - destruct (split_on sep s) as [| h t]; [congruence|]. eauto.
  - rewrite Ascii.eqb_sym, Hc in H. simpl in H. fold (no_char sep s) in H.
    destruct (IH H) as (a & b & l & ->). eauto.
Qed.

End HookFacts.

Module PathFacts.
Import Paths.

Definition grows (dk dk' : disk) : Prop :=
  forall q, path_exists dk q = true -> path_exists dk' q = true.

Lemma makedirs_spec p ok dk dk' :
  makedirs p ok dk = Some dk' -> path_exists dk' p = true /\ grows dk dk'.
Proof.
  unfold makedirs, grows. destruct (path_exists dk p) eqn:He.
  - destruct ok; intro E; inversion E; subst; auto.
  - destruct (creatable dk p); intro E; inversion E; subst. unfold path_exists. simpl.
    rewrite String.eqb_refl. split; [reflexivity|].
    intros q Hq. rewrite existsb_app, Hq, !orb_true_r. reflexivity.
Qed.

Lemma get_app_data_path_spec pr dk p dk' :
  get_app_data_path pr dk = Some (p, dk') -> path_exists dk' p = true /\ grows dk dk'.
Proof.
  unfold get_app_data_path.
  destruct (makedirs _ true dk) as [dk1 |] eqn:E; intro H; inversion H; subst.
  apply (makedirs_spec _ _ _ _ E).
Qed.

Lemma get_default_download_path_spec pr dk p dk' :
  get_default_download_path pr dk = Some (p, dk') -> path_exists dk' p = true /\ grows dk dk'.
Proof.
  unfold get_default_download_path. destruct (path_exists dk _).
  - destruct (makedirs _ true dk) as [dk1 |] eqn:E; intro H; inversion H; subst.
    apply (makedirs_spec _ _ _ _ E).
  - apply get_app_data_path_spec.
Qed.

Lemma create_download_directory_spec p dk dk' :
  create_download_directory p dk = Some dk' -> path_exists dk' p = true /\ grows dk dk'.
Proof.
  unfold create_download_directory, grows. destruct (path_exists dk p) eqn:He; simpl.
  - intro E; inversion E; subst; auto.
  - apply makedirs_spec.
Qed.

End PathFacts.

Module SessionFacts.
Import Download Session SortFacts LoopFacts MoreLoopFacts.

Definition entry_from (videos : list (option raw_video)) (i : nat) (e : entry) : Prop :=
  i <= e_index e /\
  exists v, nth_error videos (e_index e - i) = Some (Some v) /\
    e_id e = rv_id v /\ e_title e = rv_title v /\
    e_url e = ("https://www.youtube.com/watch?v=" ++ rv_id v)%string.

Lemma entry_from_cons x videos i e :
  entry_from videos (S i) e -> entry_from (x :: videos) i e.
Proof.
  intros [Hle (v & Hn & Hrest)]. split; [lia|]. exists v. split; [|exact Hrest].
  replace (e_index e - i) with (S (e_index e - S i)) by lia. exact Hn.
Qed.

Lemma build_entries_spec videos : forall i,
  map e_url (fst (build_entries i videos)) = snd (build_entries i videos) /\
  StronglySorted lt (map e_index (fst (build_entries i videos))) /\
  Forall (entry_from videos i) (fst (build_entries i videos)).
Proof.
  induction videos as [| [v |] vs IH]; intro i; cbn [build_entries].
  - repeat constructor.
  - specialize (IH (S i)). destruct (build_entries (S i) vs) as [d u]. simpl in IH |- *.
    destruct IH as (Hu & Hs & Hf). split; [congruence|]. split.
    + constructor; [exact Hs|]. apply Forall_map. eapply Forall_impl; [|exact Hf].
      intros e [He _]. simpl. lia.
    + constructor.
      * split; [simpl; lia|]. exists v. rewrite Nat.sub_diag. repeat split.
      * eapply Forall_impl; [|exact Hf]. apply entry_from_cons.
  - destruct (IH (S i)) as (Hu & Hs & Hf). split; [exact Hu|]. split; [exact Hs|].
    eapply Forall_impl; [|exact Hf]. apply entry_from_cons.
Qed.

Lemma store_lengths videos s :
  List.length (video_data (store_playlist videos s)) = List.length (video_urls (store_playlist videos s)).
Proof.
  unfold store_playlist. destruct (build_entries_spec videos 0) as [Hu _].
  destruct (build_entries 0 videos) as [d u]. simpl in *. rewrite <- Hu, length_map. reflexivity.
Qed.

Lemma ssorted_lt_nodup l : StronglySorted lt l -> NoDup l.
Proof.
  induction 1 as [| a l Hs IH Hall]; constructor; auto.
  intro Hin. rewrite Forall_forall in Hall. specialize (Hall a Hin). lia.
Qed.

Lemma ssorted_seq start n : StronglySorted lt (seq start n).
Proof.
  revert start; induction n as [| n IH]; intro start; simpl; constructor; auto.
  apply Forall_forall. intros x Hx. apply in_seq in Hx. lia.
Qed.

Lemma map_url_at_seq urls : map (url_at urls) (seq 0 (List.length urls)) = urls.
Proof.
  apply (nth_ext _ _ ""%string ""%string); rewrite ?length_map, ?length_seq; [reflexivity|].
  intros n Hn. rewrite nth_indep with (d' := url_at urls 0) by (rewrite length_map, length_seq; lia).
  rewrite map_nth, seq_nth by lia. reflexivity.
Qed.

Lemma sorted_set_of_sorted sel :
  StronglySorted lt sel -> sorted_set sel = sel /\ set_len sel = List.length sel.
Proof.
  intro Hs.
  assert (Hn : set_elems sel = sel) by (apply nodup_fixed_point, ssorted_lt_nodup; auto).
  unfold set_len. rewrite Hn. split; [|reflexivity].
  apply ssorted_lt_unique; [apply sorted_set_lt | exact Hs |]. intro x. apply sorted_set_In.
Qed.

(** A strictly increasing, in-range, non-empty selection is downloaded
    index by index. *)
Lemma download_sorted_in_range {FS Info} {EX : Extractor FS Info} fs ff urls sel aq q :
  StronglySorted lt sel -> sel <> [] -> (forall i, In i sel -> i < List.length urls) ->
  exists final cls,
    download_videos fs ff urls sel aq q = Finished (List.length sel) final cls /\
    map outcome_index (outcomes final) = sel /\ attempts final = map (url_at urls) sel.
Proof.
  intros Hs Hne Hall. destruct (sorted_set_of_sorted sel Hs) as [Hsort Hlen].
  assert (Hu : urls <> []).
  { destruct sel as [| i sel']; [congruence|]. specialize (Hall i (or_introl eq_refl)).
    intros ->. simpl in Hall. lia. }
  assert (Hl : set_len sel <> 0) by (rewrite Hlen; destruct sel; [congruence | discriminate]).
  rewrite (download_videos_finished fs ff urls sel aq q Hu Hl), Hlen.
  do 2 eexists. split; [reflexivity|].
  assert (Hf : filter (in_range urls) sel = sel).
  { apply filter_all_true. intros x Hx. apply Nat.ltb_lt, Hall, Hx. }
  rewrite run_loop_indices, run_loop_attempts, Hsort, Hf. split; reflexivity.
Qed.

End SessionFacts.

(* ------------------------------------------------------------------ *)
(** ** Further properties of the program *)

Module Extras.
Import Download SortFacts LoopFacts MoreLoopFacts SplitFacts DurationFacts Duration.



(** For a [finished] event whose filename contains a dot, the reported
    extension is the text after the last dot: it has no dot, and the
    filename is some prefix, a dot, then the extension. A filename without
    a dot reports the extension [file]. *)
Theorem finished_extension d title filename :
  Hook.dict_lookup "status" d = Some "finished"%string ->
  Download.dict_get "filename" d "" = filename ->
  exists ext,
    Hook.progress_hook d title = Hook.Update (Hook.Completed (substring 0 50 title) ext) /\
    (Hook.str_contains "." filename = true ->
       Hook.str_contains "." ext = false /\ exists pre, filename = (pre ++ "." ++ ext)%string) /\
    (Hook.str_contains "." filename = false -> ext = "file"%string).
Proof.
  intros Hst Hfn. exists (Hook.file_ext filename). split.
  { unfold Hook.progress_hook. rewrite Hst, Hfn. reflexivity. }
  unfold Hook.file_ext. split; intro Hc; rewrite Hc; [|reflexivity].
  rewrite HookFacts.str_contains_no_char in Hc. apply negb_true_iff in Hc.
  destruct (HookFacts.split_on_two_pieces "." filename Hc) as (a & b & l & Hs).
  pose proof (split_on_pieces "." filename) as Hp.
  pose proof (split_on_concat "." filename) as Hcat.
  set (pieces := split_on "." filename) in *.
  assert (Hne : pieces <> []) by (rewrite Hs; discriminate).
  pose proof (app_removelast_last ""%string Hne) as Hsplit.
  split.
  - rewrite HookFacts.str_contains_no_char.
    rewrite Forall_forall in Hp. rewrite (Hp (last pieces ""%string)); [reflexivity|].
    rewrite Hsplit at 2. apply in_or_app. right. left. reflexivity.
  - exists (String.concat "." (removelast pieces)).
    rewrite <- Hcat at 1. rewrite Hsplit at 1. apply concat_snoc.
    rewrite Hs. simpl. discriminate.
Qed.

Lemma finished_extension_witness :
  Hook.dict_lookup "status" [("status", "finished"); ("filename", "a.b.mp4")]%string = Some "finished"%string /\
  Download.dict_get "filename" [("status", "finished"); ("filename", "a.b.mp4")]%string "" = "a.b.mp4"%string /\
  exists ext,
    Hook.progress_hook [("status", "finished"); ("filename", "a.b.mp4")]%string "title" =
      Hook.Update (Hook.Completed (substring 0 50 "title") ext) /\
    (Hook.str_contains "." "a.b.mp4" = true ->
       Hook.str_contains "." ext = false /\ exists pre, "a.b.mp4"%string = (pre ++ "." ++ ext)%string) /\
    (Hook.str_contains "." "a.b.mp4" = false -> ext = "file"%string).
Proof. split; [reflexivity | split; [reflexivity | apply finished_extension; reflexivity]]. Defined.



(** When [YouTubePlaylistDownloader.__init__] returns (raising nothing),
    its download directory exists on disk, no directory that existed
    before is gone, and [ffmpeg_available] is the [check_ffmpeg] result. *)
Theorem init_download_path_exists pr ff arg dk dl dk' :
  Paths.init pr ff arg dk = Some (dl, dk') ->
  Paths.path_exists dk' (Paths.download_path dl) = true /\
  PathFacts.grows dk dk' /\ Paths.ffmpeg_available dl = ff.
Proof.
  unfold Paths.init.
  destruct arg as [p |].
  - destruct (Paths.create_download_directory p dk) as [dk2 |] eqn:E; intro H; inversion H; subst.
    destruct (PathFacts.create_download_directory_spec _ _ _ E). auto.
  - destruct (Paths.get_default_download_path pr dk) as [[p dk1] |] eqn:E1; [|discriminate].
    destruct (Paths.create_download_directory p dk1) as [dk2 |] eqn:E2; intro H; inversion H; subst.
    destruct (PathFacts.get_default_download_path_spec _ _ _ _ E1) as [_ G1].
    destruct (PathFacts.create_download_directory_spec _ _ _ E2) as [Hx G2].
    unfold PathFacts.grows in *. auto.
Qed.

Lemma init_download_path_exists_witness :
  let pr := Paths.mk_process false "/opt/app" "/opt/app/src" "/home/u" in
  let dk := Paths.mk_disk ["/home/u"; "/home/u/Downloads"] (fun _ => true) in
  Paths.init pr true None dk
    = Some (Paths.mk_downloader "/home/u/Downloads/YouTubePlaylistDownloads" true,
            Paths.mk_disk ["/home/u/Downloads/YouTubePlaylistDownloads"; "/home"; "/home/u";
                           "/home/u/Downloads"; "/home/u"; "/home/u/Downloads"] (fun _ => true)) /\
  Paths.path_exists (Paths.mk_disk ["/home/u/Downloads/YouTubePlaylistDownloads"; "/home"; "/home/u";
                           "/home/u/Downloads"; "/home/u"; "/home/u/Downloads"] (fun _ => true))
    "/home/u/Downloads/YouTubePlaylistDownloads" = true /\
  PathFacts.grows dk (Paths.mk_disk ["/home/u/Downloads/YouTubePlaylistDownloads"; "/home"; "/home/u";
                           "/home/u/Downloads"; "/home/u"; "/home/u/Downloads"] (fun _ => true)) /\
  true = true.
Proof.
  intros pr dk. split; [reflexivity|].
  exact (init_download_path_exists pr true None dk _ _ eq_refl).
Defined.

(** [get_default_download_path] picks [~/Downloads/YouTubePlaylistDownloads]
    when [~/Downloads] exists, and otherwise the [downloads] folder next to
    the executable (frozen) or the script; when it returns, that folder
    exists and no directory has disappeared. *)
Theorem default_download_path_choice pr dk p dk' :
  Paths.get_default_download_path pr dk = Some (p, dk') ->
  p = (if Paths.path_exists dk (Paths.join (Paths.home pr) "Downloads")
       then Paths.join (Paths.join (Paths.home pr) "Downloads") "YouTubePlaylistDownloads"
       else Paths.join (if Paths.frozen pr then Paths.executable_dir pr else Paths.script_dir pr)
              "downloads") /\
  Paths.path_exists dk' p = true /\ PathFacts.grows dk dk'.
Proof.
  intro H. pose proof (PathFacts.get_default_download_path_spec _ _ _ _ H) as [Hx G].
  split; [|auto].
  unfold Paths.get_default_download_path, Paths.get_app_data_path in H.
  destruct (Paths.path_exists dk _);
  destruct (Paths.makedirs _ true dk); inversion H; reflexivity.
Qed.

Lemma default_download_path_choice_witness :
  let pr := Paths.mk_process true "/opt/app" "/opt/app/src" "/home/u" in
  let dk := Paths.mk_disk ["/home/u"] (fun _ => true) in
  let dk' := Paths.mk_disk ["/opt/app/downloads"; "/opt"; "/opt/app"; "/home/u"] (fun _ => true) in
  Paths.get_default_download_path pr dk = Some ("/opt/app/downloads"%string, dk') /\
  "/opt/app/downloads"%string =
    (if Paths.path_exists dk (Paths.join (Paths.home pr) "Downloads")
     then Paths.join (Paths.join (Paths.home pr) "Downloads") "YouTubePlaylistDownloads"
     else Paths.join (if Paths.frozen pr then Paths.executable_dir pr else Paths.script_dir pr)
            "downloads") /\
  Paths.path_exists dk' "/opt/app/downloads" = true /\ PathFacts.grows dk dk'.
Proof.
  intros pr dk dk'. split; [reflexivity|].
  exact (default_download_path_choice pr dk _ _ eq_refl).
Defined.

Import Session SessionFacts.

(** [build_entries] as called from [main]: the URL list is the entries'
    URLs, indices strictly increase, and every entry is the non-[None]
    raw entry at its index, with the watch URL built from its id. *)
Theorem build_entries_correct videos :
  map e_url (fst (build_entries 0 videos)) = snd (build_entries 0 videos) /\
  StronglySorted lt (map e_index (fst (build_entries 0 videos))) /\
  Forall (fun e => exists v, nth_error videos (e_index e) = Some (Some v) /\
            e_id e = rv_id v /\ e_title e = rv_title v /\
            e_url e = ("https://www.youtube.com/watch?v=" ++ rv_id v)%string)
    (fst (build_entries 0 videos)).
Proof.
  destruct (build_entries_spec videos 0) as (Hu & Hs & Hf). split; [exact Hu|]. split; [exact Hs|].
  eapply Forall_impl; [|exact Hf]. intros e [_ Hv]. rewrite Nat.sub_0_r in Hv. exact Hv.
Qed.

Lemma build_entries_complete_gen videos : forall i k v,
  nth_error videos k = Some (Some v) ->
  In (mk_entry (i + k) (rv_id v) (rv_title v) ("https://www.youtube.com/watch?v=" ++ rv_id v)%string)
    (fst (build_entries i videos)).
Proof.
  induction videos as [| x vs IH]; intros i k v Hk; [destruct k; discriminate|].
  destruct k as [| k].
  - simpl in Hk. injection Hk as ->. cbn [build_entries].
    destruct (build_entries (S i) vs) as [d u]. simpl. left. rewrite Nat.add_0_r. reflexivity.
  - simpl in Hk. specialize (IH (S i) k v Hk). rewrite Nat.add_succ_r.
    destruct x as [w |]; cbn [build_entries]; [|exact IH].
    destruct (build_entries (S i) vs) as [d u]. simpl in *. right. exact IH.
Qed.

(** No raw entry is lost: a non-[None] entry at position [k] yields a
    video entry with index [k]. *)
Theorem build_entries_complete videos k v :
  nth_error videos k = Some (Some v) ->
  In (mk_entry k (rv_id v) (rv_title v) ("https://www.youtube.com/watch?v=" ++ rv_id v)%string)
    (fst (build_entries 0 videos)).
Proof. intro Hk. exact (build_entries_complete_gen videos 0 k v Hk). Qed.

Lemma build_entries_complete_witness :
  let v := mk_raw_video "abc" "T" (Some 5) in
  nth_error [None; Some v] 1 = Some (Some v) /\
  In (mk_entry 1 "abc" "T" "https://www.youtube.com/watch?v=abc")
    (fst (build_entries 0 [None; Some v])).
Proof.
  intro v. split; [reflexivity|]. exact (build_entries_complete [None; Some v] 1 v eq_refl).
Defined.

Lemma watch_url_invalid id :
  Url.is_valid_playlist_url ("https://www.youtube.com/watch?v=" ++ id)%string = false.
Proof.
  apply not_true_is_false. intro H. unfold Url.is_valid_playlist_url in H.
  apply RegexFacts.match_prefix_iff in H as (p & r & E & Hp).
  apply UrlFacts.pattern_lang in Hp as (sch & www & host & id' & -> & Hs & Hw & Hh & _).
  destruct Hs as [<- | [<- | [<- | []]]]; destruct Hw as [<- | [<- | []]];
  destruct Hh as [<- | [<- | [<- | []]]]; simpl in E; discriminate E.
Qed.

(** The per-video URLs stored after loading a playlist are watch URLs,
    which the playlist URL check rejects. *)
Theorem stored_urls_not_playlists videos s u :
  In u (video_urls (store_playlist videos s)) -> Url.is_valid_playlist_url u = false.
Proof.
  unfold store_playlist. destruct (build_entries_spec videos 0) as (Hu & _ & Hf).
  destruct (build_entries 0 videos) as [d us]. simpl in *. intro Hin.
  rewrite <- Hu in Hin. apply in_map_iff in Hin as (e & <- & He).
  rewrite Forall_forall in Hf. destruct (Hf e He) as (_ & v & _ & _ & _ & ->).
  apply watch_url_invalid.
Qed.

Lemma stored_urls_not_playlists_witness :
  In "https://www.youtube.com/watch?v=abc"%string
    (video_urls (store_playlist [Some (mk_raw_video "abc" "T" None)] init_session)) /\
  Url.is_valid_playlist_url "https://www.youtube.com/watch?v=abc" = false.
Proof.
  split; [simpl; left; reflexivity|].
  apply (stored_urls_not_playlists [Some (mk_raw_video "abc" "T" None)] init_session).
  simpl; left; reflexivity.
Defined.

(** A non-empty URL that fails the check leaves the session unchanged and
    shows the invalid-URL page, whatever fetching would have returned. *)
Theorem load_playlist_invalid fetch url s :
  url <> ""%string -> Url.is_valid_playlist_url url = false ->
  Page.load_playlist fetch url s = (s, Page.InvalidUrl).
Proof.
  intros Hne Hv. unfold Page.load_playlist.
  destruct url as [| c url']; [congruence|]. rewrite Hv. reflexivity.
Qed.

Lemma load_playlist_invalid_witness :
  "https://www.youtube.com/watch?v=abc"%string <> ""%string /\
  Url.is_valid_playlist_url "https://www.youtube.com/watch?v=abc" = false /\
  Page.load_playlist (fun _ => Some [Some (mk_raw_video "x" "X" None)])
    "https://www.youtube.com/watch?v=abc" Demo.old_session = (Demo.old_session, Page.InvalidUrl).
Proof.
  split; [discriminate|]. split; [reflexivity|].
  apply load_playlist_invalid; [discriminate | reflexivity].
Defined.

(** Loading changes the session only when the listing is shown, which
    requires a valid URL whose fetch returned a non-empty entry list; the
    new session is that list stored over the old one. *)
Theorem load_playlist_effect fetch url s s' pg :
  Page.load_playlist fetch url s = (s', pg) ->
  (pg = Page.Listing /\ Url.is_valid_playlist_url url = true /\
   exists videos, fetch url = Some videos /\ videos <> [] /\ s' = store_playlist videos s) \/
  (pg <> Page.Listing /\ s' = s).
Proof.
  unfold Page.load_playlist. destruct url as [| c url'].
  - intro E. injection E as <- <-. right. split; [discriminate | reflexivity].
  - destruct (Url.is_valid_playlist_url (String c url')) eqn:Hv; simpl.
    + destruct (fetch (String c url')) as [[| x xs] |] eqn:Hf; intro E; injection E as <- <-.
      * right. split; [discriminate | reflexivity].
      * left. split; [reflexivity|]. split; [reflexivity|].
        exists (x :: xs). split; [reflexivity|]. split; [discriminate | reflexivity].
      * right. split; [discriminate | reflexivity].
    + intro E. injection E as <- <-. right. split; [discriminate | reflexivity].
Qed.

Lemma load_playlist_effect_witness :
  let url := "https://youtube.com/playlist?list=PL1"%string in
  let vs := [Some (mk_raw_video "x" "X" None)] in
  Page.load_playlist (fun _ => Some vs) url init_session = (store_playlist vs init_session, Page.Listing) /\
  ((Page.Listing = Page.Listing /\ Url.is_valid_playlist_url url = true /\
    exists videos, (fun _ : string => Some vs) url = Some videos /\ videos <> [] /\
      store_playlist vs init_session = store_playlist videos init_session) \/
   (Page.Listing <> Page.Listing /\ store_playlist vs init_session = init_session)).
Proof.
  intros url vs. split; [reflexivity|].
  exact (load_playlist_effect (fun _ => Some vs) url init_session _ _ eq_refl).
Defined.

(** Select All on a loaded playlist, then Start Download: every video is
    attempted once, in playlist order, with its own URL. *)
Theorem select_all_download {FS Info} {EX : Extractor FS Info} videos s fs ff aq q :
  let s' := select_all (store_playlist videos s) in
  video_urls s' <> [] ->
  exists final cls,
    download_videos fs ff (video_urls s') (selected_videos s') aq q =
      Finished (List.length (video_urls s')) final cls /\
    map outcome_index (outcomes final) = seq 0 (List.length (video_urls s')) /\
    attempts final = video_urls s'.
Proof.
  intros s' Hne. subst s'. cbn [select_all selected_videos video_urls] in *.
  rewrite store_lengths. remember (video_urls (store_playlist videos s)) as urls eqn:Hurls.
  assert (Hpos : 0 < List.length urls) by (destruct urls; [congruence | simpl; lia]).
  destruct (download_sorted_in_range (EX := EX) fs ff urls (seq 0 (List.length urls)) aq q
              (ssorted_seq 0 _)) as (final & cls & E & Hi & Ha).
  - destruct (List.length urls); [lia | discriminate].
  - intros i Hi. apply in_seq in Hi. lia.
  - rewrite length_seq in E. rewrite map_url_at_seq in Ha. exists final, cls. auto.
Qed.

Lemma select_all_download_witness :
  let s' := select_all (store_playlist [Some (mk_raw_video "a" "A" None); None;
                                        Some (mk_raw_video "b" "B" None)] init_session) in
  video_urls s' <> [] /\
  exists final cls,
    download_videos (EX := Demo.demo_extractor) [] false (video_urls s') (selected_videos s') false "best" =
      Finished (List.length (video_urls s')) final cls /\
    map outcome_index (outcomes final) = seq 0 (List.length (video_urls s')) /\
    attempts final = video_urls s'.
Proof.
  intro s'. split; [discriminate|].
  apply (select_all_download (EX := Demo.demo_extractor)). discriminate.
Defined.

(** Update Selections on a loaded playlist, then Start Download (offered
    only when the selection is non-empty): exactly the checked positions
    are attempted, in ascending order, each with its own URL. *)
Theorem submit_download {FS Info} {EX : Extractor FS Info} videos s checks fs ff aq q :
  let s' := submit_form checks (store_playlist videos s) in
  selected_videos s' <> [] ->
  exists final cls,
    download_videos fs ff (video_urls s') (selected_videos s') aq q =
      Finished (List.length (selected_videos s')) final cls /\
    map outcome_index (outcomes final) = selected_videos s' /\
    (forall i, In i (selected_videos s') <-> i < List.length (video_urls s') /\ nth i checks false = true) /\
    attempts final = map (fun i => nth i (video_urls s') ""%string) (selected_videos s').
Proof.
  intros s' Hne. subst s'. cbn [submit_form selected_videos video_urls] in *.
  rewrite store_lengths in *. remember (video_urls (store_playlist videos s)) as urls eqn:Hurls.
  set (sel := filter (fun i => nth i checks false) (seq 0 (List.length urls))) in *.
  assert (Hin : forall i, In i sel <-> i < List.length urls /\ nth i checks false = true).
  { intro i. unfold sel. rewrite filter_In, in_seq. lia || (split; intros [A B]; split; lia || auto). }
  destruct (download_sorted_in_range (EX := EX) fs ff urls sel aq q) as (final & cls & E & Hi & Ha).
  - apply ssorted_filter, ssorted_seq.
  - exact Hne.
  - intros i H. apply Hin in H. lia.
  - exists final, cls. auto.
Qed.

Lemma submit_download_witness :
  let s' := submit_form [true; false; true]
              (store_playlist [Some (mk_raw_video "a" "A" None); Some (mk_raw_video "b" "B" None);
                               Some (mk_raw_video "c" "C" None)] init_session) in
  selected_videos s' = [0; 2] /\
  exists final cls,
    download_videos (EX := Demo.demo_extractor) [] true (video_urls s') (selected_videos s') true "best" =
      Finished (List.length (selected_videos s')) final cls /\
    map outcome_index (outcomes final) = selected_videos s' /\
    (forall i, In i (selected_videos s') <-> i < List.length (video_urls s') /\ nth i [true; false; true] false = true) /\
    attempts final = map (fun i => nth i (video_urls s') ""%string) (selected_videos s').
Proof.
  intro s'. split; [reflexivity|].
  apply (submit_download (EX := Demo.demo_extractor)). discriminate.
Defined.

(** After Clear All nothing is downloaded and [False] is returned. *)
Theorem clear_all_download {FS Info} {EX : Extractor FS Info} s fs ff aq q :
  exists msg,
    download_videos fs ff (video_urls (clear_all s)) (selected_videos (clear_all s)) aq q = NothingToDo msg /\
    dv_return (@NothingToDo FS msg) = false.
Proof.
  unfold download_videos. cbn [clear_all selected_videos video_urls].
  destruct (video_urls s); eexists; split; reflexivity.
Qed.

(** [download_videos] returns [True] exactly when the loop ran and did not
    end in the all-failed case. *)
Theorem dv_return_iff {FS Info} {EX : Extractor FS Info} fs ff urls sel aq q :
  dv_return (download_videos fs ff urls sel aq q) = true <->
  exists total final cls,
    download_videos fs ff urls sel aq q = Finished total final cls /\ cls <> AllFailed.
Proof.
  destruct (download_videos fs ff urls sel aq q) as [msg | total final cls] eqn:E; simpl.
  - split; [discriminate|]. intros (? & ? & ? & H & _). discriminate H.
  - apply download_videos_inv in E as (_ & Hl & -> & Hf & ->).
    assert (Hle : success_count final <= set_len sel).
    { rewrite Hf, <- sorted_set_length. eapply Nat.le_trans;
        [apply run_loop_success_le | apply filter_length_le]. }
    unfold classify. split.
    + intro H. apply Nat.ltb_lt in H. do 3 eexists. split; [reflexivity|].
      destruct (Nat.eqb _ _); [discriminate|].
      replace (Nat.ltb 0 (success_count final)) with true by (symmetry; apply Nat.ltb_lt; lia).
      discriminate.
    + intros (t & f & c & Eq & Hc). injection Eq as <- <- <-.
      apply Nat.ltb_lt. destruct (Nat.eqb (success_count final) (set_len sel)) eqn:Heq.
      * apply Nat.eqb_eq in Heq. lia.
      * destruct (Nat.ltb 0 (success_count final)) eqn:Hp; [apply Nat.ltb_lt; auto | congruence].
Qed.

(** The format string has no plain [best] alternative exactly for video
    downloads at one of the four fixed heights. *)
Theorem format_fallback_iff ff aq q :
  falls_back_to_best (format_of ff aq q) = false <->
  aq = false /\ In q ["1080p"; "720p"; "480p"; "360p"]%string.
Proof.
  destruct aq.
  - split; [intro H; destruct ff; vm_compute in H; discriminate H | intros [H _]; discriminate H].
  - unfold format_of, quality_map. cbn [dict_get].
    destruct (String.eqb_spec q "best") as [-> | n1].
    { split; [intro H; vm_compute in H; discriminate H | intros [_ H]; simpl in H; intuition discriminate]. }
    destruct (String.eqb_spec q "1080p") as [-> | n2]; [split; [intros _; split; [reflexivity | simpl; tauto] | intros _; reflexivity]|].
    destruct (String.eqb_spec q "720p") as [-> | n3]; [split; [intros _; split; [reflexivity | simpl; tauto] | intros _; reflexivity]|].
    destruct (String.eqb_spec q "480p") as [-> | n4]; [split; [intros _; split; [reflexivity | simpl; tauto] | intros _; reflexivity]|].
    destruct (String.eqb_spec q "360p") as [-> | n5]; [split; [intros _; split; [reflexivity | simpl; tauto] | intros _; reflexivity]|].
    split; [intro H; vm_compute in H; discriminate H|]. intros [_ H]. simpl in H. intuition congruence.
Qed.

End Extras.
